(** * lale.lib.rasl.metrics: monoid-based batched scoring

    A shallow embedding of [src/lale/lib/rasl/metrics.py] and the
    properties its specification states about it.

    Conventions of the embedding:
    - a Python [int] is a [Z], and the counts of the monoid values are
      [int]s, as the constructors annotate them; a Python [float] /
      [np.float64] is a primitive binary64 [float], whose operations follow
      IEEE 754 the way numpy's do (a division by zero yields an infinity or
      a NaN, it does not raise);
    - a Python call that may raise returns a [result]: [Ok v] or [Raise e];
    - [assert] statements are executed (Python run without [-O]);
    - the module-level dictionary [_scorer_cache] and the objects it refers
      to are an explicit store that [get_scorer] threads. *)

From Stdlib Require Import ZArith Floats.
From stdpp Require Import base option list strings gmap.

Local Open Scope Z_scope.

(** ** Exceptions and fallible computations *)

(** The exceptions the module itself can raise, and one more for whatever an
    external collaborator (the columnar pipeline, the model) raises. *)
Inductive exn : Type :=
  | AssertionError          (* a failed [assert] *)
  | TypeError               (* [functools.reduce] of an empty iterable *)
  | OverflowError           (* an [int] too large to convert to a float *)
  | KeyError                (* a dictionary read at a missing key *)
  | ExternalError (tag : string).

Inductive result (A : Type) : Type :=
  | Ok (a : A)
  | Raise (e : exn).
Arguments Ok {A} a.
Arguments Raise {A} e.

#[export] Instance result_ret : MRet result := fun _ a => Ok a.

#[export] Instance result_bind : MBind result := fun _ _ k r =>
  match r with
  | Ok a => k a
  | Raise e => Raise e
  end.

Definition assert_ (c : bool) : result unit :=
  if c then Ok tt else Raise AssertionError.

(** [fails r]: the call raised. *)
Definition fails {A : Type} (r : result A) : Prop := exists e, r = Raise e.

(** ** Floats *)

(** Conversion of a Python integer to binary64, [np.float64(z)] or the
    implicit conversion of the integer operand of a mixed division: rounded
    to nearest even; an integer whose rounding is not finite raises
    [OverflowError]. *)
Definition Z2float (z : Z) : float :=
  SF2Prim (binary_normalize prec emax z 0 false).

Definition np_float64 (z : Z) : result float :=
  let f := Z2float z in
  if is_infinity f then Raise OverflowError else Ok f.

(** ** External data containers

    The tabular containers are collaborators of the module; what it needs of
    them is that a label sequence has an index, values and a dtype, and that
    an unlabeled array can be re-labelled with another sequence's index and
    converted to its dtype. *)

(** A dtype, as far as the module uses one: its name and the conversion of
    the values of an array to it, which raises when a value has no
    counterpart in the dtype. *)
Record dtype : Type := mk_dtype {
  dtype_name : string;
  astype : list float -> result (list float)
}.

(** Binary64 values are float64 values already. *)
Definition float64 : dtype := mk_dtype "float64" (fun a => Ok a).

Record Series : Type := mk_Series {
  s_index : list Z;
  s_values : list float;
  s_dtype : dtype
}.

Record DataFrame : Type := mk_DataFrame {
  df_index : list Z;
  df_columns : list (string * list float)
}.

(** [Union[pd.Series, np.ndarray]] *)
Inductive labels : Type :=
  | PdSeries (s : Series)
  | NdArray (a : list float).

(** [_Batch_yyX]: (y_true, y_pred, X). *)
Definition Batch_yyX : Type := option Series * labels * option DataFrame.

(** [_Batch_Xy]: (X, y). *)
Definition Batch_Xy : Type := DataFrame * Series.

(** [pd.Series(data, index, dtype, name)] on an array: pandas rejects data
    whose length differs from the index's, and then converts the data to the
    dtype, which may raise. *)
Definition pd_Series (data : list float) (index : list Z) (dt : dtype)
    : result Series :=
  if (length data =? length index)%nat
  then values ← astype dt data; Ok (mk_Series index values dt)
  else Raise (ExternalError "ValueError").

(** [TrainedOperator]: all the module uses is [predict]. *)
Record TrainedOperator : Type := mk_TrainedOperator {
  predict : DataFrame -> result labels
}.

(** ** Iterables

    A generator produces its elements one at a time, and producing one may
    raise: an iterable is the list of what each pull yields. *)
Definition iterable (A : Type) : Type := list (result A).

Definition iter_of_list {A : Type} (l : list A) : iterable A := map Ok l.

(** The generator expression [(f(b) for b in it)]. *)
Definition gen_map {A B : Type} (f : A -> result B) (it : iterable A) : iterable B :=
  map (fun r => r ≫= f) it.

Fixpoint reduce_from {A : Type} (function : A -> A -> A) (value : A)
    (it : iterable A) : result A :=
  match it with
  | [] => Ok value
  | r :: it' => x ← r; reduce_from function (function value x) it'
  end.

(** [functools.reduce(function, iterable)] with no initial value: the first
    element starts the fold; an empty iterable raises [TypeError]. *)
Definition functools_reduce {A : Type} (function : A -> A -> A)
    (it : iterable A) : result A :=
  match it with
  | [] => Raise TypeError
  | r :: it' => x ← r; reduce_from function x it'
  end.

(** ** The interfaces *)

(** [Monoid]: a value that combines with another of its type. *)
Class MetricMonoid (M : Type) : Type :=
  combine : M -> M -> M.

(** [MetricMonoidFactory]: the four abstract methods ([from_monoid] comes
    from [MonoidFactory]) ... *)
Class MetricMonoidFactory (F M : Type) `{MetricMonoid M} : Type := {
  to_monoid : F -> Batch_yyX -> result M;
  from_monoid : F -> M -> result float;
  score_data : F -> Series -> labels -> option DataFrame -> result float;
  score_estimator : F -> TrainedOperator -> DataFrame -> Series -> result float
}.

(** ... and the three methods the base class implements. *)
Section MetricMonoidFactory_methods.
Context {F M : Type} `{MetricMonoidFactory F M}.

(** [__call__] *)
Definition call (self : F) (estimator : TrainedOperator) (X : DataFrame)
    (y : Series) : result float :=
  score_estimator self estimator X y.

Definition score_data_batched (self : F) (batches : iterable Batch_yyX)
    : result float :=
  let lifted_batches := gen_map (to_monoid self) batches in
  combined ← functools_reduce combine lifted_batches;
  from_monoid self combined.

Definition score_estimator_batched (self : F) (estimator : TrainedOperator)
    (batches : iterable Batch_Xy) : result float :=
  let predicted_batches :=
    gen_map (fun '(X, y) =>
               y_pred ← predict estimator X; Ok (Some y, y_pred, Some X))
            batches in
  score_data_batched self predicted_batches.
End MetricMonoidFactory_methods.

(** [_MetricMonoidMixin]: [score_data] and [score_estimator] in terms of the
    subclass's [to_monoid] and [from_monoid]. *)
Section MetricMonoidMixin.
Context {F M : Type}.
Variable to_monoid_ : F -> Batch_yyX -> result M.
Variable from_monoid_ : F -> M -> result float.

Definition Mixin_score_data (self : F) (y_true : Series) (y_pred : labels)
    (X : option DataFrame) : result float :=
  v ← to_monoid_ self (Some y_true, y_pred, X);
  from_monoid_ self v.

(** [score_estimator] calls [self.score_data], whichever the class of
    [self] defines. *)
Variable score_data_ : F -> Series -> labels -> option DataFrame -> result float.

Definition Mixin_score_estimator (self : F) (estimator : TrainedOperator)
    (X : DataFrame) (y : Series) : result float :=
  y_pred ← predict estimator X;
  score_data_ self y y_pred None.
End MetricMonoidMixin.

(** A factory class derives from the mixin when its two scoring methods are
    the mixin's. *)
Class FromMixin (F M : Type) `{MetricMonoidFactory F M} : Prop := {
  score_data_mixin :
    forall self y_true y_pred X,
      score_data self y_true y_pred X
      = Mixin_score_data to_monoid from_monoid self y_true y_pred X;
  score_estimator_mixin :
    forall self estimator X y,
      score_estimator self estimator X y
      = Mixin_score_estimator score_data self estimator X y
}.

(** ** The columnar pipeline, seen from this module

    [to_monoid] builds [(prefix_true & prefix_pred) >> self._pipeline_suffix],
    transforms the two label tables with it and reads the first row of the
    result. The operators are collaborators; the factory object holds the
    suffix as the function from the two tables to that row. *)
Definition pipeline (Row : Type) : Type := Series -> Series -> result Row.

(** The start of both [to_monoid] methods (the same lines in the two
    classes): unpack the batch, assert that the labels are there, re-label a
    bare array with [y_true]'s index and convert it to [y_true]'s dtype. [y_pred] cannot be [None] in
    [labels], and the two [isinstance] assertions hold by typing. *)
Definition batch_tables (batch : Batch_yyX) : result (Series * Series) :=
  let '(y_true, y_pred, _) := batch in
  match y_true with
  | None => Raise AssertionError
  | Some y_true =>
      y_pred ← match y_pred with
                | NdArray a => pd_Series a (s_index y_true) (s_dtype y_true)
                | PdSeries s => Ok s
                end;
      Ok (y_true, y_pred)
  end.

(** ** Accuracy *)

Record _AccuracyData : Type := mk_AccuracyData {
  _match : Z;
  _total : Z
}.

Definition AccuracyData_combine (self other : _AccuracyData) : _AccuracyData :=
  mk_AccuracyData (_match self + _match other) (_total self + _total other).

#[export] Instance AccuracyData_monoid : MetricMonoid _AccuracyData :=
  AccuracyData_combine.

Record _Accuracy : Type := mk_Accuracy {
  Accuracy_pipeline_suffix : pipeline (Z * Z)
}.

Definition Accuracy_to_monoid (self : _Accuracy) (batch : Batch_yyX)
    : result _AccuracyData :=
  '(y_true, y_pred) ← batch_tables batch;
  '(m, t) ← Accuracy_pipeline_suffix self y_true y_pred;
  Ok (mk_AccuracyData m t).

(** [float(v._match / np.float64(v._total))]: the divisor is converted
    first, then the division converts the integer dividend; the quotient is
    numpy's, which returns an infinity or NaN for a zero divisor. *)
Definition Accuracy_from_monoid (self : _Accuracy) (v : _AccuracyData)
    : result float :=
  t ← np_float64 (_total v);
  m ← np_float64 (_match v);
  Ok (m / t)%float.

#[export] Instance Accuracy_factory : MetricMonoidFactory _Accuracy _AccuracyData := {
  to_monoid := Accuracy_to_monoid;
  from_monoid := Accuracy_from_monoid;
  score_data := Mixin_score_data Accuracy_to_monoid Accuracy_from_monoid;
  score_estimator :=
    Mixin_score_estimator (Mixin_score_data Accuracy_to_monoid Accuracy_from_monoid)
}.

(** ** R2 *)

Record _R2Data : Type := mk_R2Data {
  _n : Z;
  _sum : float;
  _sum_sq : float;
  _res_sum_sq : float
}.

Definition R2Data_combine (self other : _R2Data) : _R2Data :=
  mk_R2Data (_n self + _n other)
            (_sum self + _sum other)%float
            (_sum_sq self + _sum_sq other)%float
            (_res_sum_sq self + _res_sum_sq other)%float.

#[export] Instance R2Data_monoid : MetricMonoid _R2Data := R2Data_combine.

Record _R2 : Type := mk_R2 {
  R2_pipeline_suffix : pipeline (Z * float * float * float)
}.

Definition R2_to_monoid (self : _R2) (batch : Batch_yyX) : result _R2Data :=
  '(y_true, y_pred) ← batch_tables batch;
  '(n, sum, sum_sq, res_sum_sq) ← R2_pipeline_suffix self y_true y_pred;
  Ok (mk_R2Data n sum sum_sq res_sum_sq).

(** [ss_tot = v._sum_sq - (v._sum * v._sum / np.float64(v._n))] *)
Definition R2_ss_tot (v : _R2Data) : result float :=
  n ← np_float64 (_n v);
  Ok (_sum_sq v - (_sum v * _sum v / n))%float.

(** [1 - float(v._res_sum_sq / ss_tot)] *)
Definition R2_from_monoid (self : _R2) (v : _R2Data) : result float :=
  ss_tot ← R2_ss_tot v;
  Ok (1 - _res_sum_sq v / ss_tot)%float.

#[export] Instance R2_factory : MetricMonoidFactory _R2 _R2Data := {
  to_monoid := R2_to_monoid;
  from_monoid := R2_from_monoid;
  score_data := Mixin_score_data R2_to_monoid R2_from_monoid;
  score_estimator :=
    Mixin_score_estimator (Mixin_score_data R2_to_monoid R2_from_monoid)
}.

(** ** The pipelines the two constructors build *)

Definition aligned (y_true y_pred : Series) : bool :=
  bool_decide (s_index y_true = s_index y_pred)
  && (length (s_values y_true) =? length (s_index y_true))%nat
  && (length (s_values y_pred) =? length (s_index y_pred))%nat.

(** Modelled from the spec: the pipeline suffix of [_Accuracy.__init__],
    built from [ConcatFeatures], [Map] and [Aggregate], which are not in this
    module. Section 4.3 of the specification: per row a 0/1 column "predicted
    equals true", aggregated into its sum and its count. *)
Definition accuracy_pipeline : pipeline (Z * Z) := fun y_true y_pred =>
  if aligned y_true y_pred then
    let rows := zip (s_values y_true) (s_values y_pred) in
    let matches := map (fun '(t, p) => if (t =? p)%float then 1 else 0) rows in
    Ok (fold_left Z.add matches 0, Z.of_nat (length matches))
  else Raise (ExternalError "InvalidBatch").

(** Modelled from the spec: the pipeline suffix of [_R2.__init__], from the
    same operators. Section 4.4 of the specification: the columns y, y*y and
    (y-f)*(y-f), aggregated into count, sum, sum of squares and sum of
    squared residuals. *)
Definition r2_pipeline : pipeline (Z * float * float * float) := fun y_true y_pred =>
  if aligned y_true y_pred then
    let rows := zip (s_values y_true) (s_values y_pred) in
    let y := map fst rows in
    let y2 := map (fun '(t, _) => (t * t)%float) rows in
    let e2 := map (fun '(t, p) => ((t - p) * (t - p))%float) rows in
    Ok (Z.of_nat (length y),
        fold_left PrimFloat.add y 0%float,
        fold_left PrimFloat.add y2 0%float,
        fold_left PrimFloat.add e2 0%float)
  else Raise (ExternalError "InvalidBatch").

(** [pd.Series(values)] for a list of floats: the default index 0, 1, 2, ...
    and the dtype float64. *)
Definition range_indexed (values : list float) : Series :=
  mk_Series (map Z.of_nat (seq 0 (length values))) values float64.

Definition Accuracy__init__ : _Accuracy := mk_Accuracy accuracy_pipeline.
Definition R2__init__ : _R2 := mk_R2 r2_pipeline.

(** ** The scorer registry

    Factory instances are objects: the store holds them, a reference is the
    position of an object in the store, and two references are the same
    instance exactly when they are equal. [_scorer_cache] maps a metric name
    to [None] or to a reference. *)

Inductive scorer : Type :=
  | Scorer_Accuracy (self : _Accuracy)
  | Scorer_R2 (self : _R2).

Abbreviation ref := nat.

Record pystate : Type := mk_pystate {
  objects : list scorer;
  _scorer_cache : gmap string (option ref)
}.

(** The state when the module has been loaded. *)
Definition initial_state : pystate :=
  mk_pystate [] (<["accuracy" := None]> (<["r2" := None]> ∅)).

(** Computations on the state that may raise. *)
Definition py (A : Type) : Type := pystate -> result A * pystate.

#[export] Instance py_ret : MRet py := fun _ a σ => (Ok a, σ).

#[export] Instance py_bind : MBind py := fun _ _ k c σ =>
  match c σ with
  | (Ok a, σ') => k a σ'
  | (Raise e, σ') => (Raise e, σ')
  end.

Definition py_raise {A : Type} (e : exn) : py A := fun σ => (Raise e, σ).

Definition py_lift {A : Type} (r : result A) : py A := fun σ => (r, σ).

(** [k in _scorer_cache] *)
Definition cache_contains (k : string) : py bool := fun σ =>
  (Ok (bool_decide (is_Some (_scorer_cache σ !! k))), σ).

(** [_scorer_cache[k]] *)
Definition cache_get (k : string) : py (option ref) := fun σ =>
  match _scorer_cache σ !! k with
  | Some v => (Ok v, σ)
  | None => (Raise KeyError, σ)
  end.

(** [_scorer_cache[k] = v] *)
Definition cache_set (k : string) (v : option ref) : py unit := fun σ =>
  (Ok tt, mk_pystate (objects σ) (<[k := v]> (_scorer_cache σ))).

(** A constructor call: the new object gets a reference no other has. *)
Definition new_object (o : scorer) : py ref := fun σ =>
  (Ok (length (objects σ)), mk_pystate (objects σ ++ [o]) (_scorer_cache σ)).

Definition deref (r : ref) : py scorer := fun σ =>
  match objects σ !! r with
  | Some o => (Ok o, σ)
  | None => (Raise (ExternalError "dangling reference"), σ)
  end.

Definition get_scorer (scoring : string) : py ref :=
  known ← cache_contains scoring;
  _ ← py_lift (assert_ known);
  entry ← cache_get scoring;
  _ ← match entry with
      | None =>
          if String.eqb scoring "accuracy" then
            o ← new_object (Scorer_Accuracy Accuracy__init__);
            cache_set scoring (Some o)
          else if String.eqb scoring "r2" then
            o ← new_object (Scorer_R2 R2__init__);
            cache_set scoring (Some o)
          else mret tt
      | Some _ => mret tt
      end;
  result ← cache_get scoring;
  match result with
  | None => py_raise AssertionError
  | Some r => mret r
  end.

(** A method call on a reference dispatches on the class of the object. *)
Definition scorer_score_data (o : scorer) (y_true : Series) (y_pred : labels)
    (X : option DataFrame) : result float :=
  match o with
  | Scorer_Accuracy self => score_data self y_true y_pred X
  | Scorer_R2 self => score_data self y_true y_pred X
  end.

Definition accuracy_score (y_true : Series) (y_pred : labels) : py float :=
  r ← get_scorer "accuracy";
  o ← deref r;
  py_lift (scorer_score_data o y_true y_pred None).

Definition r2_score (y_true : Series) (y_pred : labels) : py float :=
  r ← get_scorer "r2";
  o ← deref r;
  py_lift (scorer_score_data o y_true y_pred None).

(** One call of [get_scorer], with any argument and any outcome, takes the
    state [σ] to the state [σ']. *)
Definition step (σ σ' : pystate) : Prop :=
  exists scoring, (get_scorer scoring σ).2 = σ'.

Definition reachable (σ : pystate) : Prop := rtc step initial_state σ.

(** The three states of a name in the registry. *)
Inductive entry_state : Type := Unregistered | Uninitialized | Initialized.

Definition entry_state_of (σ : pystate) (name : string) : entry_state :=
  match _scorer_cache σ !! name with
  | None => Unregistered
  | Some None => Uninitialized
  | Some (Some _) => Initialized
  end.

Definition entry_rank (s : entry_state) : nat :=
  match s with
  | Unregistered => 0
  | Uninitialized => 1
  | Initialized => 2
  end.

(** The object [get_scorer] constructs for a registered name. *)
Definition constructed (name : string) : scorer :=
  if String.eqb name "accuracy" then Scorer_Accuracy Accuracy__init__
  else Scorer_R2 R2__init__.

(** The state after a first call for [name]: one more object, and the
    entry of [name] refers to it. *)
Definition populated (name : string) (σ : pystate) : pystate :=
  mk_pystate (objects σ ++ [constructed name])
             (<[name := Some (length (objects σ))]> (_scorer_cache σ)).

(** ** Exact values of floats

    Every finite binary64 number is a multiple of 2^-1074: [F2Z x] is the
    integer [x * 2^1074], which makes sums and differences of floats exact
    integers. [finite x] holds of the zeros and of the finite numbers. *)
Definition F2Z (x : float) : Z :=
  match Prim2SF x with
  | S754_finite s m e => cond_Zopp s (Zpos m) * 2 ^ (e + 1074)
  | _ => 0
  end.

Definition finite (x : float) : bool :=
  match Prim2SF x with
  | S754_zero _ | S754_finite _ _ _ => true
  | _ => false
  end.

(** The float addition [x + y] is exact: it neither rounds nor overflows. *)
Definition exact_add (x y : float) : bool :=
  finite (x + y) && (F2Z (x + y) =? F2Z x + F2Z y).

(** All four additions of the two groupings of [x + y + z] are exact. *)
Definition exact_sum3 (x y z : float) : bool :=
  exact_add x y && exact_add (x + y) z && exact_add y z && exact_add x (y + z).

Definition R2Data_exact (a b c : _R2Data) : bool :=
  exact_sum3 (_sum a) (_sum b) (_sum c)
  && exact_sum3 (_sum_sq a) (_sum_sq b) (_sum_sq c)
  && exact_sum3 (_res_sum_sq a) (_res_sum_sq b) (_res_sum_sq c).

(** The float fields of an R2 value. *)
Definition R2Data_float_fields : list (_R2Data -> float) :=
  [_sum; _sum_sq; _res_sum_sq].



(** What a right shift by [k] bits keeps of the mantissa [m0]: the quotient
    by [P = 2^k] and, in the two flags, how the remainder compares to half
    of [P]. *)
Definition shr_inv (m0 P : Z) (mrs : shr_record) : Prop :=
  exists rem,
    m0 = shr_m mrs * P + rem /\ 0 <= rem < P /\ 0 <= shr_m mrs
    /\ (shr_r mrs = true <-> P <= 2 * rem)
    /\ (shr_s mrs = true <-> (rem <> 0 /\ 2 * rem <> P)).

(** What rounding to nearest makes of the positive value [v] (scaled by
    2^1074) whose binade has the exponent [t]: an infinity of sign [s] when
    the exponent leaves the format, and otherwise a valid float of sign [s],
    within 2^-53 of [v]. *)
Definition rounds_to (s : bool) (v t : Z) (r : spec_float) : Prop :=
  (r = S754_infinity s /\ 971 <= t)
  \/ exists m' e',
      r = S754_finite s m' e'
      /\ bounded prec emax m' e' = true
      /\ 2 ^ 53 * Z.abs (Zpos m' * 2 ^ (e' + 1074) - v) <= v.

(** Closeness within a tolerance, as Python's [math.isclose] decides it: an
    infinity is close to nothing but itself. *)
Definition isclose (a b rel_tol abs_tol : float) : bool :=
  if (a =? b)%float then true
  else if is_infinity a || is_infinity b then false
  else
    let diff := abs (b - a) in
    (diff <=? abs (rel_tol * b))%float
    || (diff <=? abs (rel_tol * a))%float
    || (diff <=? abs_tol)%float.

(** The floats that are not numbers of the real line. *)
Definition nan_or_inf (x : float) : Prop :=
  x = nan \/ x = infinity \/ x = neg_infinity.

(** The invariant of an accuracy value. *)
Definition AccuracyData_inv (v : _AccuracyData) : Prop :=
  0 <= _match v <= _total v.

(** The sum of a list of integers. *)
Definition sumZ (l : list Z) : Z := foldr Z.add 0 l.

(** The accuracy value with the summed fields of a list of values. *)
Definition AccuracyData_total (vs : list _AccuracyData) : _AccuracyData :=
  mk_AccuracyData (sumZ (map _match vs)) (sumZ (map _total vs)).

(** Concrete inputs, on which the theorems with hypotheses are instantiated:
    two batches of labels, a table of features and a model that predicts 1
    for each of two rows. *)
Definition batch_1 : Batch_yyX :=
  (Some (range_indexed [1; 0]%float), NdArray [1; 1]%float, None).

Definition batch_2 : Batch_yyX :=
  (Some (range_indexed [1; 1; 0]%float), NdArray [1; 0; 0]%float, None).

Definition features_2 : DataFrame :=
  mk_DataFrame [0; 1] [("x", [0.5; 1.5]%float)].

Definition model_ones : TrainedOperator :=
  mk_TrainedOperator (fun _ => Ok (NdArray [1; 1]%float)).




(** * Properties *)

(** ** The registry *)

(** Unfold a computation of the [py] monad down to its state passing. *)
Ltac py_unfold :=
  unfold get_scorer, mbind, py_bind, mret, py_ret, py_lift, py_raise, assert_,
         cache_contains, cache_get, cache_set, new_object.

Section Registry.
Implicit Types (σ : pystate) (name scoring : string) (l : ref).

Lemma get_scorer_unregistered σ scoring :
  _scorer_cache σ !! scoring = None ->
  get_scorer scoring σ = (Raise AssertionError, σ).
Proof.
  intros Hk. py_unfold.
  rewrite Hk. rewrite bool_decide_eq_false_2; [reflexivity|].
  intros [? ?]; discriminate.
Qed.

Lemma get_scorer_initialized σ scoring l :
  _scorer_cache σ !! scoring = Some (Some l) ->
  get_scorer scoring σ = (Ok l, σ).
Proof.
  intros Hk. py_unfold.
  rewrite Hk. rewrite bool_decide_eq_true_2 by eauto.
  simpl. rewrite Hk. reflexivity.
Qed.

Lemma get_scorer_first σ name :
  name = "accuracy" \/ name = "r2" ->
  _scorer_cache σ !! name = Some None ->
  get_scorer name σ = (Ok (length (objects σ)), populated name σ).
Proof.
  intros Hname Hk. py_unfold.
  rewrite Hk. rewrite bool_decide_eq_true_2 by eauto.
  destruct Hname as [-> | ->]; simpl;
    rewrite lookup_insert_eq; reflexivity.
Qed.

Lemma get_scorer_stray σ scoring :
  scoring <> "accuracy" -> scoring <> "r2" ->
  _scorer_cache σ !! scoring = Some None ->
  get_scorer scoring σ = (Raise AssertionError, σ).
Proof.
  intros Ha Hr Hk. py_unfold.
  rewrite Hk. rewrite bool_decide_eq_true_2 by eauto. simpl.
  destruct (String.eqb_spec scoring "accuracy") as [?|_]; [contradiction|].
  destruct (String.eqb_spec scoring "r2") as [?|_]; [contradiction|].
  simpl. rewrite Hk. reflexivity.
Qed.

(** Every call either leaves the state alone or populates an entry that
    was [None]. *)
Lemma get_scorer_state σ scoring :
  (get_scorer scoring σ).2 = σ
  \/ (_scorer_cache σ !! scoring = Some None
      /\ (get_scorer scoring σ).2 = populated scoring σ).
Proof.
  destruct (_scorer_cache σ !! scoring) as [[l|]|] eqn:Hk.
  - left. by rewrite (get_scorer_initialized _ _ l).
  - destruct (decide (scoring = "accuracy")) as [Ha|Ha].
    { right. split; [done|]. rewrite get_scorer_first; auto. }
    destruct (decide (scoring = "r2")) as [Hr|Hr].
    { right. split; [done|]. rewrite get_scorer_first; auto. }
    left. by rewrite get_scorer_stray.
  - left. by rewrite get_scorer_unregistered.
Qed.

Lemma step_cases σ σ' :
  step σ σ' ->
  σ' = σ \/ exists name, _scorer_cache σ !! name = Some None /\ σ' = populated name σ.
Proof.
  intros [scoring <-].
  destruct (get_scorer_state σ scoring) as [->|[Hk ->]]; eauto.
Qed.

(** What one call preserves. *)
Lemma step_keeps_initialized σ σ' name l :
  step σ σ' ->
  _scorer_cache σ !! name = Some (Some l) ->
  _scorer_cache σ' !! name = Some (Some l).
Proof.
  intros Hstep Hk.
  destruct (step_cases _ _ Hstep) as [->|(k & Hnone & ->)]; [done|].
  simpl. rewrite lookup_insert_ne; [done|]. congruence.
Qed.

Lemma step_keeps_unregistered σ σ' name :
  step σ σ' ->
  _scorer_cache σ !! name = None ->
  _scorer_cache σ' !! name = None.
Proof.
  intros Hstep Hk.
  destruct (step_cases _ _ Hstep) as [->|(k & Hnone & ->)]; [done|].
  simpl. rewrite lookup_insert_ne; [done|]. congruence.
Qed.

Lemma step_keeps_registered σ σ' name :
  step σ σ' ->
  is_Some (_scorer_cache σ !! name) ->
  is_Some (_scorer_cache σ' !! name).
Proof.
  intros Hstep Hk.
  destruct (step_cases _ _ Hstep) as [->|(k & Hnone & ->)]; [done|].
  simpl. destruct (decide (k = name)) as [->|Hne].
  - rewrite lookup_insert_eq. eauto.
  - by rewrite lookup_insert_ne.
Qed.

Lemma step_keeps_objects σ σ' l o :
  step σ σ' ->
  objects σ !! l = Some o ->
  objects σ' !! l = Some o.
Proof.
  intros Hstep Hl.
  destruct (step_cases _ _ Hstep) as [->|(k & Hnone & ->)]; [done|].
  simpl. by apply lookup_app_l_Some.
Qed.

Lemma step_rank σ σ' name :
  step σ σ' ->
  (entry_rank (entry_state_of σ name) <= entry_rank (entry_state_of σ' name))%nat.
Proof.
  intros Hstep. unfold entry_state_of.
  destruct (_scorer_cache σ !! name) as [[l|]|] eqn:Hk.
  - by rewrite (step_keeps_initialized _ _ _ _ Hstep Hk).
  - destruct (step_keeps_registered σ σ' name Hstep) as [[?|] ->]; simpl; eauto; lia.
  - simpl. lia.
Qed.

(** ... and what any number of calls preserve. *)
Lemma steps_keep_initialized σ σ' name l :
  rtc step σ σ' ->
  _scorer_cache σ !! name = Some (Some l) ->
  _scorer_cache σ' !! name = Some (Some l).
Proof. induction 1; eauto using step_keeps_initialized. Qed.

Lemma steps_keep_unregistered σ σ' name :
  rtc step σ σ' ->
  _scorer_cache σ !! name = None ->
  _scorer_cache σ' !! name = None.
Proof. induction 1; eauto using step_keeps_unregistered. Qed.

Lemma steps_keep_registered σ σ' name :
  rtc step σ σ' ->
  is_Some (_scorer_cache σ !! name) ->
  is_Some (_scorer_cache σ' !! name).
Proof. induction 1; eauto using step_keeps_registered. Qed.

Lemma steps_keep_objects σ σ' l o :
  rtc step σ σ' ->
  objects σ !! l = Some o ->
  objects σ' !! l = Some o.
Proof. induction 1; eauto using step_keeps_objects. Qed.

Lemma steps_rank σ σ' name :
  rtc step σ σ' ->
  (entry_rank (entry_state_of σ name) <= entry_rank (entry_state_of σ' name))%nat.
Proof.
  induction 1 as [|σ1 σ2 σ3 Hstep _ IH]; [lia|].
  pose proof (step_rank _ _ name Hstep). lia.
Qed.

(** The names of the initial dictionary, and no others, are registered in
    every reachable state. *)
Lemma initial_registered name :
  is_Some (_scorer_cache initial_state !! name) <-> name = "accuracy" \/ name = "r2".
Proof.
  unfold initial_state; simpl. split.
  - intros [v Hv].
    destruct (decide (name = "accuracy")) as [|Ha]; [by left|].
    destruct (decide (name = "r2")) as [|Hr]; [by right|].
    rewrite !lookup_insert_ne in Hv by done. by rewrite lookup_empty in Hv.
  - intros [-> | ->]; [rewrite lookup_insert_eq; eauto|].
    rewrite lookup_insert_ne by done. rewrite lookup_insert_eq; eauto.
Qed.

Lemma reachable_registered σ name :
  reachable σ ->
  is_Some (_scorer_cache σ !! name) <-> name = "accuracy" \/ name = "r2".
Proof.
  intros Hreach. rewrite <- initial_registered. split.
  - intros Hsome.
    destruct (_scorer_cache initial_state !! name) eqn:Hinit; [eauto|].
    rewrite (steps_keep_unregistered _ _ _ Hreach Hinit) in Hsome.
    by destruct Hsome.
  - by apply steps_keep_registered.
Qed.

(** An initialized entry refers to an object of the class of its name. *)
Lemma reachable_objects σ :
  reachable σ ->
  forall k l, _scorer_cache σ !! k = Some (Some l) ->
              objects σ !! l = Some (constructed k).
Proof.
  unfold reachable. revert σ.
  apply (rtc_ind_r (fun σ => forall k l,
           _scorer_cache σ !! k = Some (Some l) ->
           objects σ !! l = Some (constructed k))).
  - intros k l Hk. exfalso. unfold initial_state in Hk; simpl in Hk.
    destruct (decide (k = "accuracy")) as [->|Ha].
    { rewrite lookup_insert_eq in Hk. discriminate. }
    rewrite lookup_insert_ne in Hk by done.
    destruct (decide (k = "r2")) as [->|Hr].
    { rewrite lookup_insert_eq in Hk. discriminate. }
    rewrite lookup_insert_ne in Hk by done. by rewrite lookup_empty in Hk.
  - intros σa σb _ Hab IH k l Hk.
    destruct (step_cases _ _ Hab) as [->|(k' & Hnone & ->)]; [eauto|].
    simpl in *. destruct (decide (k' = k)) as [->|Hne].
    + rewrite lookup_insert_eq in Hk. injection Hk as <-.
      rewrite lookup_app_r by lia.
      replace (length (objects σa) - length (objects σa))%nat with 0%nat by lia.
      reflexivity.
    + rewrite lookup_insert_ne in Hk by done.
      apply lookup_app_l_Some. eauto.
Qed.

(** C6. For every string that is not a registered metric name
    ("accuracy", "r2"), [get_scorer] fails, in whatever state earlier
    calls have left the registry: the [assert] on the name raises
    [AssertionError], the failure the specification calls
    UnknownMetricError, and the registry is left as it was. *)
Theorem get_scorer_unknown_metric (σ : pystate) (name : string) :
  reachable σ ->
  name <> "accuracy" -> name <> "r2" ->
  get_scorer name σ = (Raise AssertionError, σ).
Proof.
  intros Hreach Ha Hr. apply get_scorer_unregistered.
  destruct (_scorer_cache σ !! name) eqn:Hk; [|done].
  assert (is_Some (_scorer_cache σ !! name)) as Hsome by (rewrite Hk; eauto).
  apply (reachable_registered σ name Hreach) in Hsome. tauto.
Qed.

Lemma get_scorer_unknown_metric_witness :
  get_scorer "f1" (get_scorer "accuracy" initial_state).2
  = (Raise AssertionError, (get_scorer "accuracy" initial_state).2).
Proof.
  apply get_scorer_unknown_metric.
  - apply rtc_once. exists "accuracy". reflexivity.
  - discriminate.
  - discriminate.
Defined.

(** C7. In every reachable state and for every registered name,
    [get_scorer] returns a reference [l]; if the entry was still [None]
    (the first call) the call constructs the concrete factory, as a new
    object, and stores its reference in the entry; after the call, however
    many calls of [get_scorer] follow and whatever their arguments, a call
    with the same name returns the same [l] and changes nothing, and [l]
    still refers to the same object; and no call ever moves the entry of
    any name back: Unregistered, Uninitialized, Initialized is the only
    order. *)
Theorem get_scorer_singleton (σ : pystate) (name : string) :
  reachable σ ->
  name = "accuracy" \/ name = "r2" ->
  exists l σ1,
    get_scorer name σ = (Ok l, σ1)
    /\ (entry_state_of σ name = Uninitialized ->
        l = length (objects σ) /\ σ1 = populated name σ)
    /\ objects σ1 !! l = Some (constructed name)
    /\ (forall σ2, rtc step σ1 σ2 ->
          get_scorer name σ2 = (Ok l, σ2)
          /\ objects σ2 !! l = Some (constructed name))
    /\ (forall σ2 σ3 k, rtc step σ σ2 -> rtc step σ2 σ3 ->
          (entry_rank (entry_state_of σ2 k) <= entry_rank (entry_state_of σ3 k))%nat).
Proof.
  intros Hreach Hname.
  pose proof (reachable_objects σ Hreach) as Hobj.
  assert (Hsome : is_Some (_scorer_cache σ !! name))
    by (by apply reachable_registered).
  assert (Hrank : forall σ2 σ3 k, rtc step σ σ2 -> rtc step σ2 σ3 ->
            (entry_rank (entry_state_of σ2 k) <= entry_rank (entry_state_of σ3 k))%nat).
  { intros σ2 σ3 k _ H23. by apply steps_rank. }
  destruct Hsome as [[l|] Hk].
  - exists l, σ. split; [by apply get_scorer_initialized|].
    split; [unfold entry_state_of; rewrite Hk; discriminate|].
    split; [eauto|]. split; [|done].
    intros σ2 H12. split.
    + apply get_scorer_initialized. eauto using steps_keep_initialized.
    + eauto using steps_keep_objects.
  - exists (length (objects σ)), (populated name σ).
    assert (Hl : objects (populated name σ) !! length (objects σ)
                 = Some (constructed name)).
    { simpl. rewrite lookup_app_r by lia.
      replace (length (objects σ) - length (objects σ))%nat with 0%nat by lia.
      reflexivity. }
    split; [by apply get_scorer_first|]. split; [done|].
    split; [done|]. split; [|done].
    intros σ2 H12. split.
    + apply get_scorer_initialized.
      apply (steps_keep_initialized _ _ _ _ H12).
      simpl. by rewrite lookup_insert_eq.
    + eauto using steps_keep_objects.
Qed.

Lemma get_scorer_singleton_witness :
  exists l σ1,
    get_scorer "r2" (get_scorer "accuracy" initial_state).2 = (Ok l, σ1)
    /\ (entry_state_of (get_scorer "accuracy" initial_state).2 "r2" = Uninitialized ->
        l = length (objects (get_scorer "accuracy" initial_state).2)
        /\ σ1 = populated "r2" (get_scorer "accuracy" initial_state).2)
    /\ objects σ1 !! l = Some (constructed "r2")
    /\ (forall σ2, rtc step σ1 σ2 ->
          get_scorer "r2" σ2 = (Ok l, σ2)
          /\ objects σ2 !! l = Some (constructed "r2"))
    /\ (forall σ2 σ3 k,
          rtc step (get_scorer "accuracy" initial_state).2 σ2 -> rtc step σ2 σ3 ->
          (entry_rank (entry_state_of σ2 k) <= entry_rank (entry_state_of σ3 k))%nat).
Proof.
  apply get_scorer_singleton.
  - apply rtc_once. exists "accuracy". reflexivity.
  - right. reflexivity.
Defined.
End Registry.

(** ** Scoring *)

Section Scoring.
Context {F M : Type} `{FromMixin F M}.

Lemma mixin_score_data_single_batch (self : F) (y_true : Series)
    (y_pred : labels) (X : option DataFrame) :
  score_data self y_true y_pred X
  = score_data_batched self (iter_of_list [(Some y_true, y_pred, X)]).
Proof.
  rewrite score_data_mixin.
  unfold Mixin_score_data, score_data_batched, functools_reduce; simpl.
  destruct (to_monoid self (Some y_true, y_pred, X)); reflexivity.
Qed.

Lemma mixin_score_estimator_predict (self : F) (estimator : TrainedOperator)
    (X : DataFrame) (y : Series) :
  score_estimator self estimator X y
  = (predictions ← predict estimator X; score_data self y predictions None).
Proof. by rewrite score_estimator_mixin. Qed.
End Scoring.

(** The two concrete factories take both methods from the mixin. *)
#[export] Instance Accuracy_from_mixin : FromMixin _Accuracy _AccuracyData.
Proof. split; reflexivity. Qed.

#[export] Instance R2_from_mixin : FromMixin _R2 _R2Data.
Proof. split; reflexivity. Qed.

(** C1. For the accuracy factory and for the R2 factory, and every pair of
    label sequences ([y_pred] a labelled sequence or a bare array),
    [score_data(y_true, y_pred)] is the result of [score_data_batched] on
    the one-batch sequence [[(y_true, y_pred, None)]]: the same float, or
    the same exception when the batch cannot be lifted. *)
Theorem score_data_equals_single_batch :
  (forall (self : _Accuracy) (y_true : Series) (y_pred : labels),
      score_data self y_true y_pred None
      = score_data_batched self (iter_of_list [(Some y_true, y_pred, None)]))
  /\ (forall (self : _R2) (y_true : Series) (y_pred : labels),
      score_data self y_true y_pred None
      = score_data_batched self (iter_of_list [(Some y_true, y_pred, None)])).
Proof.
  split; intros; apply mixin_score_data_single_batch.
Qed.

(** C5. For every metric factory, [score_data_batched] of an empty sequence
    of batches fails: [functools.reduce] has no first operand and raises
    [TypeError], the failure the specification calls
    EmptyBatchSequenceError. *)
Theorem score_data_batched_empty {F M : Type} `{MetricMonoidFactory F M}
    (self : F) :
  score_data_batched self [] = Raise TypeError
  /\ fails (score_data_batched self (iter_of_list [])).
Proof.
  split; [reflexivity|]. by exists TypeError.
Qed.

(** C8. For accuracy values [a] and [b] that satisfy
    [0 <= match <= total], [combine a b] is the field-wise sum of the two, and
    satisfies [0 <= match <= total] again. *)
Theorem AccuracyData_combine_inv (a b : _AccuracyData) :
  AccuracyData_inv a -> AccuracyData_inv b ->
  combine a b = mk_AccuracyData (_match a + _match b) (_total a + _total b)
  /\ AccuracyData_inv (combine a b).
Proof.
  unfold AccuracyData_inv, combine, AccuracyData_monoid, AccuracyData_combine.
  simpl. intros Ha Hb. split; [reflexivity|lia].
Qed.

Lemma AccuracyData_combine_inv_witness :
  combine (mk_AccuracyData 1 2) (mk_AccuracyData 2 3) = mk_AccuracyData (1 + 2) (2 + 3)
  /\ AccuracyData_inv (combine (mk_AccuracyData 1 2) (mk_AccuracyData 2 3)).
Proof.
  apply AccuracyData_combine_inv; unfold AccuracyData_inv; simpl; lia.
Defined.

(** C9. For the accuracy factory and for the R2 factory, and every model,
    features [X] and labels [y], [score_estimator(model, X, y)] calls the
    model's [predict] on [X] and is then [score_data(y, predictions)] on what
    [predict] returned (and raises what [predict] raised). *)
Theorem score_estimator_delegates :
  (forall (self : _Accuracy) (model : TrainedOperator) (X : DataFrame) (y : Series),
      score_estimator self model X y
      = (predictions ← predict model X; score_data self y predictions None))
  /\ (forall (self : _R2) (model : TrainedOperator) (X : DataFrame) (y : Series),
      score_estimator self model X y
      = (predictions ← predict model X; score_data self y predictions None)).
Proof.
  split; intros; apply mixin_score_estimator_predict.
Qed.

(** C10. Every metric factory is callable: calling it with
    [(estimator, X, y)] gives the result of its [score_estimator] on the same
    arguments. *)
Theorem call_is_score_estimator {F M : Type} `{MetricMonoidFactory F M}
    (self : F) (estimator : TrainedOperator) (X : DataFrame) (y : Series) :
  call self estimator X y = score_estimator self estimator X y.
Proof. reflexivity. Qed.

(** ** Binary64 arithmetic *)

Lemma Prim2SF_eq (x : float) (sf : spec_float) : Prim2SF x = sf -> x = SF2Prim sf.
Proof. intros <-. by rewrite SF2Prim_Prim2SF. Qed.

(** Division by zero. *)
Section FloatCases.
Implicit Types x y : float.

Lemma eqb_zero_inv y :
  (y =? 0)%float = true -> exists s, Prim2SF y = S754_zero s.
Proof.
  rewrite FloatAxioms.eqb_spec. change (Prim2SF 0) with (S754_zero false).
  destruct (Prim2SF y) as [s|s| |s m e]; try discriminate; eauto;
    destruct s; discriminate.
Qed.

Lemma nan_or_inf_inv y :
  nan_or_inf y ->
  Prim2SF y = S754_nan \/ exists s, Prim2SF y = S754_infinity s.
Proof. intros [->|[->| ->]]; [left|right; exists false|right; exists true]; reflexivity. Qed.

(** [x / 0] and [x / -0] are NaN or an infinity, never an exception. *)
Lemma div_by_zero x y :
  (y =? 0)%float = true -> nan_or_inf (x / y).
Proof.
  intros [s Hy]%eqb_zero_inv. unfold nan_or_inf.
  pose proof (div_spec x y) as Hd. rewrite Hy in Hd.
  apply Prim2SF_eq in Hd. rewrite Hd.
  destruct (Prim2SF x) as [sx|sx| |sx m e]; simpl; auto;
    destruct sx, s; simpl; auto.
Qed.

Lemma sub_nan_or_inf x y : nan_or_inf y -> nan_or_inf (x - y).
Proof.
  intros Hy. unfold nan_or_inf.
  pose proof (sub_spec x y) as Hd. apply Prim2SF_eq in Hd. rewrite Hd.
  destruct (nan_or_inf_inv y Hy) as [-> | [s ->]];
    destruct (Prim2SF x) as [sx|sx| |sx m e]; simpl; auto;
    try destruct sx; destruct s; simpl; auto.
Qed.

Lemma div_by_nan_or_inf x y :
  nan_or_inf y -> (x / y = nan \/ x / y = 0 \/ x / y = -0)%float.
Proof.
  intros Hy.
  pose proof (div_spec x y) as Hd. apply Prim2SF_eq in Hd. rewrite Hd.
  destruct (nan_or_inf_inv y Hy) as [-> | [s ->]];
    destruct (Prim2SF x) as [sx|sx| |sx m e]; simpl; auto;
    destruct sx, s; simpl; auto.
Qed.

Lemma one_minus_nan_or_inf y : nan_or_inf y -> nan_or_inf (1 - y).
Proof. apply sub_nan_or_inf. Qed.
End FloatCases.

(** Exact additions. *)
Section Exact.
Implicit Types (x y z : float) (m : positive) (e : Z) (s : bool).

Lemma digits2_bounds m :
  2 ^ (Zpos (digits2_pos m) - 1) <= Zpos m < 2 ^ Zpos (digits2_pos m).
Proof.
  induction m as [m IH|m IH|]; simpl digits2_pos.
  - rewrite Pos2Z.inj_succ.
    replace (Z.succ (Zpos (digits2_pos m)) - 1) with (Z.succ (Zpos (digits2_pos m) - 1)) by lia.
    rewrite !Z.pow_succ_r by lia. lia.
  - rewrite Pos2Z.inj_succ.
    replace (Z.succ (Zpos (digits2_pos m)) - 1) with (Z.succ (Zpos (digits2_pos m) - 1)) by lia.
    rewrite !Z.pow_succ_r by lia. lia.
  - simpl. lia.
Qed.

Lemma finite_canonical x s m e :
  Prim2SF x = S754_finite s m e ->
  Z.max (Zpos (digits2_pos m) + e - 53) (-1074) = e /\ e <= 971.
Proof.
  intros Hx. pose proof (Prim2SF_valid x) as Hv. rewrite Hx in Hv.
  unfold SpecFloat.valid_binary, bounded, canonical_mantissa, fexp, SpecFloat.emin in Hv.
  apply andb_prop in Hv as [Hc He].
  apply Z.eqb_eq in Hc. apply Z.leb_le in He.
  change prec with 53 in *. change emax with 1024 in *. lia.
Qed.

Lemma canonical_unique m1 e1 m2 e2 :
  Z.max (Zpos (digits2_pos m1) + e1 - 53) (-1074) = e1 ->
  Z.max (Zpos (digits2_pos m2) + e2 - 53) (-1074) = e2 ->
  Zpos m1 * 2 ^ (e1 + 1074) = Zpos m2 * 2 ^ (e2 + 1074) ->
  m1 = m2 /\ e1 = e2.
Proof.
  intros H1 H2 Hv.
  pose proof (digits2_bounds m1) as [L1 U1].
  pose proof (digits2_bounds m2) as [L2 U2].
  set (d1 := Zpos (digits2_pos m1)) in *. set (d2 := Zpos (digits2_pos m2)) in *.
  assert (0 < d1) by (unfold d1; lia). assert (0 < d2) by (unfold d2; lia).
  assert (0 <= e1 + 1074) by lia. assert (0 <= e2 + 1074) by lia.
  assert (0 < 2 ^ (e1 + 1074)) by (apply Z.pow_pos_nonneg; lia).
  assert (0 < 2 ^ (e2 + 1074)) by (apply Z.pow_pos_nonneg; lia).
  assert (Hlt : forall da ea db eb ma mb,
             0 < da -> 0 <= ea + 1074 -> 0 < db -> 0 <= eb + 1074 ->
             ma < 2 ^ da -> 2 ^ (db - 1) <= mb ->
             ma * 2 ^ (ea + 1074) = mb * 2 ^ (eb + 1074) ->
             db + eb <= da + ea).
  { intros da ea db eb ma mb ? ? ? ? Ua Lb Hab.
    destruct (Z_le_gt_dec (db + eb) (da + ea)) as [|Hgt]; [done|exfalso].
    assert (0 < 2 ^ (ea + 1074)) by (apply Z.pow_pos_nonneg; lia).
    assert (0 < 2 ^ (eb + 1074)) by (apply Z.pow_pos_nonneg; lia).
    assert (ma * 2 ^ (ea + 1074) < 2 ^ da * 2 ^ (ea + 1074)) by nia.
    assert (2 ^ (db - 1) * 2 ^ (eb + 1074) <= mb * 2 ^ (eb + 1074)) by nia.
    rewrite <- Z.pow_add_r in * by lia.
    assert (2 ^ (da + (ea + 1074)) <= 2 ^ (db - 1 + (eb + 1074)))
      by (apply Z.pow_le_mono_r; lia).
    lia. }
  assert (d1 + e1 = d2 + e2).
  { pose proof (Hlt d1 e1 d2 e2 _ _ ltac:(lia) ltac:(lia) ltac:(lia) ltac:(lia) U1 L2 Hv).
    pose proof (Hlt d2 e2 d1 e1 _ _ ltac:(lia) ltac:(lia) ltac:(lia) ltac:(lia) U2 L1 (eq_sym Hv)).
    lia. }
  assert (e1 = e2) by lia. subst e2. split; [|done].
  apply Z.mul_cancel_r in Hv; [congruence|lia].
Qed.

Lemma F2Z_finite_inj x y s1 m1 e1 s2 m2 e2 :
  Prim2SF x = S754_finite s1 m1 e1 ->
  Prim2SF y = S754_finite s2 m2 e2 ->
  F2Z x = F2Z y -> x = y.
Proof.
  intros Hx Hy Hv. apply Prim2SF_inj. rewrite Hx, Hy.
  unfold F2Z in Hv. rewrite Hx, Hy in Hv.
  destruct (finite_canonical _ _ _ _ Hx) as [C1 _].
  destruct (finite_canonical _ _ _ _ Hy) as [C2 _].
  assert (0 < 2 ^ (e1 + 1074)) by (apply Z.pow_pos_nonneg; lia).
  assert (0 < 2 ^ (e2 + 1074)) by (apply Z.pow_pos_nonneg; lia).
  assert (0 < Zpos m1 * 2 ^ (e1 + 1074)) by (apply Z.mul_pos_pos; lia).
  assert (0 < Zpos m2 * 2 ^ (e2 + 1074)) by (apply Z.mul_pos_pos; lia).
  destruct s1, s2; unfold cond_Zopp in Hv;
    rewrite ?Z.mul_opp_l in Hv; [|exfalso; lia|exfalso; lia|];
    (destruct (canonical_unique m1 e1 m2 e2 C1 C2) as [-> ->]; [lia|done]).
Qed.

Lemma F2Z_finite_nonzero x s m e :
  Prim2SF x = S754_finite s m e -> F2Z x <> 0.
Proof.
  intros Hx. unfold F2Z. rewrite Hx.
  destruct (finite_canonical _ _ _ _ Hx) as [C _].
  assert (0 < 2 ^ (e + 1074)) by (apply Z.pow_pos_nonneg; lia).
  assert (0 < Zpos m * 2 ^ (e + 1074)) by (apply Z.mul_pos_pos; lia).
  destruct s; unfold cond_Zopp; rewrite ?Z.mul_opp_l; lia.
Qed.

Lemma iter_xO m (d : positive) :
  Zpos (Pos.iter xO m d) = Zpos m * 2 ^ Zpos d.
Proof.
  induction d as [|d IH] using Pos.peano_ind.
  - simpl. lia.
  - rewrite Pos.iter_succ, Pos2Z.inj_succ, Z.pow_succ_r by lia.
    rewrite Pos2Z.inj_xO, IH. lia.
Qed.

Lemma shl_align_value m e e' :
  -1074 <= e' <= e ->
  Zpos (fst (shl_align m e e')) * 2 ^ (e' + 1074) = Zpos m * 2 ^ (e + 1074).
Proof.
  intros He. unfold shl_align.
  destruct (e' - e) as [|d|d] eqn:Hd; simpl fst; try lia.
  - replace e' with e by lia. done.
  - rewrite iter_xO. replace (e + 1074) with (Zpos d + (e' + 1074)) by lia.
    rewrite (Z.pow_add_r 2 (Zpos d) (e' + 1074)) by lia. ring.
Qed.

(** The sum of two finite nonzero floats is the rounding of their exact
    sum; when that is zero the result is [+0]. *)
Lemma add_finite_cancel x y sx mx ex sy my ey :
  Prim2SF x = S754_finite sx mx ex ->
  Prim2SF y = S754_finite sy my ey ->
  F2Z x + F2Z y = 0 ->
  Prim2SF (x + y) = S754_zero false.
Proof.
  intros Hx Hy Hv. rewrite add_spec, Hx, Hy. unfold SF64add, SFadd.
  destruct (finite_canonical _ _ _ _ Hx) as [Cx _].
  destruct (finite_canonical _ _ _ _ Hy) as [Cy _].
  set (ez := Z.min ex ey).
  assert (Hmx := shl_align_value mx ex ez ltac:(lia)).
  assert (Hmy := shl_align_value my ey ez ltac:(lia)).
  unfold F2Z in Hv. rewrite Hx, Hy in Hv.
  assert (0 < 2 ^ (ez + 1074)) by (apply Z.pow_pos_nonneg; lia).
  set (ax := fst (shl_align mx ex ez)) in *.
  set (ay := fst (shl_align my ey ez)) in *.
  assert (cond_Zopp sx (Zpos ax) + cond_Zopp sy (Zpos ay) = 0) as ->; [|done].
  apply (Z.mul_cancel_r _ _ (2 ^ (ez + 1074))); [lia|].
  destruct sx, sy; unfold cond_Zopp in *; lia.
Qed.

Lemma exact_add_inv x y :
  exact_add x y = true ->
  finite (x + y) = true /\ F2Z (x + y) = F2Z x + F2Z y.
Proof.
  unfold exact_add. intros [Hf Hv]%andb_prop. by apply Z.eqb_eq in Hv.
Qed.

Lemma add_neg_zero x y :
  exact_add x y = true ->
  Prim2SF (x + y) = S754_zero true ->
  Prim2SF x = S754_zero true /\ Prim2SF y = S754_zero true.
Proof.
  intros [_ Hv]%exact_add_inv Hz.
  assert (F2Z (x + y) = 0) as Hz0 by (unfold F2Z; by rewrite Hz).
  pose proof (add_spec x y) as Hadd. rewrite Hz in Hadd.
  destruct (Prim2SF x) as [sx|sx| |sx mx ex] eqn:Hx;
    destruct (Prim2SF y) as [sy|sy| |sy my ey] eqn:Hy;
    unfold SF64add, SFadd in Hadd;
    try discriminate Hadd;
    try (destruct sx; discriminate Hadd);
    try (destruct sy; discriminate Hadd);
    try (destruct sx, sy; discriminate Hadd).
  - by destruct sx, sy.
  - pose proof (add_finite_cancel x y _ _ _ _ _ _ Hx Hy ltac:(lia)) as Hc.
    congruence.
Qed.

Lemma add_neg_zeros x y :
  Prim2SF x = S754_zero true -> Prim2SF y = S754_zero true ->
  Prim2SF (x + y) = S754_zero true.
Proof. intros Hx Hy. by rewrite add_spec, Hx, Hy. Qed.

Lemma finite_inv x :
  finite x = true ->
  (exists s, Prim2SF x = S754_zero s) \/ (exists s m e, Prim2SF x = S754_finite s m e).
Proof. unfold finite. destruct (Prim2SF x); try discriminate; eauto. Qed.

(** When no addition rounds, the two groupings of a sum of three are the
    same float. *)
Lemma add_assoc_exact x y z :
  exact_sum3 x y z = true -> (x + y + z = x + (y + z))%float.
Proof.
  unfold exact_sum3.
  intros [[[Hxy Hxy_z]%andb_prop Hyz]%andb_prop Hx_yz]%andb_prop.
  destruct (exact_add_inv _ _ Hxy) as [_ Vxy].
  destruct (exact_add_inv _ _ Hxy_z) as [Fl Vl].
  destruct (exact_add_inv _ _ Hyz) as [_ Vyz].
  destruct (exact_add_inv _ _ Hx_yz) as [Fr Vr].
  assert (Hv : F2Z (x + y + z) = F2Z (x + (y + z))) by lia.
  destruct (finite_inv _ Fl) as [[sl Hl]|(sl & ml & el & Hl)];
    destruct (finite_inv _ Fr) as [[sr Hr]|(sr & mr & er & Hr)].
  - apply Prim2SF_inj. rewrite Hl, Hr. f_equal.
    destruct sl, sr; try done.
    + destruct (add_neg_zero _ _ Hxy_z Hl) as [Hxy0 Hz0].
      destruct (add_neg_zero _ _ Hxy Hxy0) as [Hx0 Hy0].
      pose proof (add_neg_zeros _ _ Hx0 (add_neg_zeros _ _ Hy0 Hz0)). congruence.
    + destruct (add_neg_zero _ _ Hx_yz Hr) as [Hx0 Hyz0].
      destruct (add_neg_zero _ _ Hyz Hyz0) as [Hy0 Hz0].
      pose proof (add_neg_zeros _ _ (add_neg_zeros _ _ Hx0 Hy0) Hz0). congruence.
  - exfalso. apply (F2Z_finite_nonzero _ _ _ _ Hr). rewrite <- Hv.
    unfold F2Z. by rewrite Hl.
  - exfalso. apply (F2Z_finite_nonzero _ _ _ _ Hl). rewrite Hv.
    unfold F2Z. by rewrite Hr.
  - eapply F2Z_finite_inj; eauto.
Qed.
End Exact.

(** Rounded additions. *)
Section Rounding.
Implicit Types (x y z : float) (m : positive) (e : Z) (s : bool).

Lemma iter_pos_nat {A : Type} (f : A -> A) (p : positive) (a : A) :
  SpecFloat.iter_pos f p a = Nat.iter (Pos.to_nat p) f a.
Proof.
  revert a. induction p as [p IH|p IH|]; intros a; simpl SpecFloat.iter_pos.
  - rewrite !IH, Pos2Nat.inj_xI.
    replace (S (2 * Pos.to_nat p)) with (Pos.to_nat p + (Pos.to_nat p + 1))%nat by lia.
    rewrite !Nat.iter_add. reflexivity.
  - rewrite !IH, Pos2Nat.inj_xO.
    replace (2 * Pos.to_nat p)%nat with (Pos.to_nat p + Pos.to_nat p)%nat by lia.
    rewrite Nat.iter_add. reflexivity.
  - reflexivity.
Qed.

Lemma bool_iff_elim (b : bool) (Q : Prop) :
  (b = true <-> Q) -> if b then Q else ~ Q.
Proof. destruct b; intros [H1 H2]; [auto|]. intros HQ. by apply H2 in HQ. Qed.

Lemma bool_iff_intro (b : bool) (Q : Prop) :
  (if b then Q else ~ Q) -> (b = true <-> Q).
Proof. destruct b; intros H; split; intros; try done; contradiction. Qed.

Lemma shr_1_inv (m0 P : Z) (mrs : shr_record) :
  0 < P -> shr_inv m0 P mrs -> shr_inv m0 (2 * P) (shr_1 mrs).
Proof.
  intros HP (rem & Hm & Hrem & Hpos & Hr & Hs).
  destruct mrs as [mm r st]; cbn [shr_m shr_r shr_s] in *.
  apply bool_iff_elim in Hr, Hs.
  assert (Hcase : forall q b,
             mm = 2 * q + Z.b2z b -> 0 <= q ->
             shr_inv m0 (2 * P) (Build_shr_record q b (orb r st))).
  { intros q b Hq Hq0. exists (Z.b2z b * P + rem).
    cbn [shr_m shr_r shr_s].
    split; [destruct b; cbn [Z.b2z] in *; nia|].
    split; [destruct b; cbn [Z.b2z]; lia|].
    split; [done|].
    split; apply bool_iff_intro; destruct b, r, st; cbn [Z.b2z orb]; lia. }
  destruct mm as [|[p|p|]|p]; cbn [shr_1]; try lia.
  - eapply (Hcase 0 false); cbn [Z.b2z]; lia.
  - eapply (Hcase (Zpos p) true); cbn [Z.b2z]; lia.
  - eapply (Hcase (Zpos p) false); cbn [Z.b2z]; lia.
  - eapply (Hcase 0 true); cbn [Z.b2z]; lia.
Qed.

Lemma shr_iter_inv (m0 : Z) (k : nat) :
  0 <= m0 ->
  shr_inv m0 (2 ^ Z.of_nat k) (Nat.iter k shr_1 (Build_shr_record m0 false false)).
Proof.
  intros Hm0. induction k as [|k IH].
  - exists 0. cbn [Nat.iter nat_rect shr_m shr_r shr_s].
    change (2 ^ Z.of_nat 0) with 1.
    split; [lia|]. split; [lia|]. split; [lia|].
    split; apply bool_iff_intro; lia.
  - rewrite Nat2Z.inj_succ, Z.pow_succ_r by lia. simpl Nat.iter.
    apply shr_1_inv; [|done]. apply Z.pow_pos_nonneg; lia.
Qed.

(** Rounding the shifted mantissa to nearest even is off by at most half
    of [P]. *)
Lemma round_nearest_even_error (m0 P : Z) (mrs : shr_record) :
  0 < P -> shr_inv m0 P mrs ->
  let m1 := round_nearest_even (shr_m mrs) (loc_of_shr_record mrs) in
  shr_m mrs <= m1 <= shr_m mrs + 1 /\ 2 * Z.abs (m1 * P - m0) <= P.
Proof.
  intros HP (rem & Hm & Hrem & Hpos & Hr & Hs).
  destruct mrs as [mm r st]; cbn [shr_m shr_r shr_s] in *.
  apply bool_iff_elim in Hr, Hs.
  destruct r, st; cbn [loc_of_shr_record round_nearest_even];
    try destruct (Z.even mm); split; nia.
Qed.

Lemma digits2_unique (p : positive) (d : Z) :
  2 ^ (d - 1) <= Zpos p < 2 ^ d -> Zpos (digits2_pos p) = d.
Proof.
  intros [L U]. pose proof (digits2_bounds p) as [L' U'].
  set (D := Zpos (digits2_pos p)) in *.
  assert (0 < D) by (unfold D; lia).
  destruct (Z_lt_le_dec d 1) as [Hd|Hd].
  { exfalso. assert (2 ^ d <= 2 ^ 0) by (apply Z.pow_le_mono_r; lia).
    change (2 ^ 0) with 1 in *. lia. }
  destruct (Z.lt_trichotomy D d) as [Hlt|[Heq|Hgt]]; [exfalso|done|exfalso].
  - assert (2 ^ D <= 2 ^ (d - 1)) by (apply Z.pow_le_mono_r; lia). lia.
  - assert (2 ^ d <= 2 ^ (D - 1)) by (apply Z.pow_le_mono_r; lia). lia.
Qed.

Lemma digits2_iter_xO m (d : positive) :
  Zpos (digits2_pos (Pos.iter xO m d)) = Zpos (digits2_pos m) + Zpos d.
Proof.
  apply digits2_unique. rewrite iter_xO.
  pose proof (digits2_bounds m) as [L U].
  set (D := Zpos (digits2_pos m)) in *.
  assert (0 < D) by (unfold D; lia).
  assert (0 < 2 ^ Zpos d) by (apply Z.pow_pos_nonneg; lia).
  replace (D + Zpos d - 1) with ((D - 1) + Zpos d) by lia.
  rewrite !Z.pow_add_r by lia. nia.
Qed.

Lemma shr_fexp_noshift m e :
  fexp prec emax (Zpos (digits2_pos m) + e) = e ->
  shr_fexp prec emax (Zpos m) e loc_Exact
  = (Build_shr_record (Zpos m) false false, e).
Proof.
  intros He. unfold shr_fexp. cbn [Zdigits2 shr_record_of_loc].
  rewrite He, Z.sub_diag. reflexivity.
Qed.

Lemma shr_fexp_shift m e (p : positive) :
  fexp prec emax (Zpos (digits2_pos m) + e) - e = Zpos p ->
  shr_fexp prec emax (Zpos m) e loc_Exact
  = (Nat.iter (Pos.to_nat p) shr_1 (Build_shr_record (Zpos m) false false),
     e + Zpos p).
Proof.
  intros He. unfold shr_fexp. cbn [Zdigits2 shr_record_of_loc].
  rewrite He. cbn [shr]. by rewrite iter_pos_nat.
Qed.

Lemma bounded_intro m e :
  fexp prec emax (Zpos (digits2_pos m) + e) = e -> e <= 971 ->
  bounded prec emax m e = true.
Proof.
  intros Hc He. unfold bounded, canonical_mantissa.
  apply andb_true_intro. split; [by apply Z.eqb_eq|].
  apply Z.leb_le. change (emax - prec) with 971. done.
Qed.

(** The result of rounding a mantissa that has at least the digits of its
    binade: an infinity on overflow, and otherwise a float within half a
    unit in the last place, which is at most 2^-53 of the value. *)
Lemma binary_round_aux_error s m e :
  -1074 <= e ->
  e <= fexp prec emax (Zpos (digits2_pos m) + e) ->
  rounds_to s (Zpos m * 2 ^ (e + 1074))
            (fexp prec emax (Zpos (digits2_pos m) + e))
            (binary_round_aux prec emax s (Zpos m) e loc_Exact).
Proof.
  intros Hemin Hn. unfold rounds_to, binary_round_aux.
  assert (HX : 0 < 2 ^ (e + 1074)) by (apply Z.pow_pos_nonneg; lia).
  destruct (fexp prec emax (Zpos (digits2_pos m) + e) - e) as [|p|p] eqn:Hp;
    [| |lia].
  - (* the mantissa is canonical already *)
    assert (He : fexp prec emax (Zpos (digits2_pos m) + e) = e) by lia.
    rewrite (shr_fexp_noshift _ _ He).
    cbn [shr_m loc_of_shr_record round_nearest_even].
    rewrite (shr_fexp_noshift _ _ He). cbn [shr_m]. rewrite He.
    change (emax - prec) with 971.
    destruct (Z.leb_spec e 971); [right|left; split; [done|lia]].
    exists m, e. split; [done|]. split; [by apply bounded_intro|].
    rewrite Z.sub_diag. simpl Z.abs. lia.
  - (* [p] bits are shifted out *)
    rewrite (shr_fexp_shift _ _ _ Hp).
    assert (Ht : fexp prec emax (Zpos (digits2_pos m) + e) = e + Zpos p) by lia.
    rewrite Ht.
    pose proof (shr_iter_inv (Zpos m) (Pos.to_nat p) ltac:(lia)) as Hinv.
    rewrite positive_nat_Z in Hinv.
    set (mrs := Nat.iter (Pos.to_nat p) shr_1 _) in *.
    assert (HP : 0 < 2 ^ Zpos p) by (apply Z.pow_pos_nonneg; lia).
    pose proof (round_nearest_even_error _ _ _ HP Hinv) as [Hm1 Herr].
    set (m1 := round_nearest_even (shr_m mrs) (loc_of_shr_record mrs)) in *.
    destruct Hinv as (rem & Hm & Hrem & Hq & _).
    (* the digits of the mantissa *)
    pose proof (digits2_bounds m) as [L U].
    assert (HD : Zpos (digits2_pos m) = 53 + Zpos p).
    { unfold fexp, SpecFloat.emin in Ht. change prec with 53 in Ht.
      change emax with 1024 in Ht. lia. }
    rewrite HD in L, U.
    replace (53 + Zpos p - 1) with (52 + Zpos p) in L by lia.
    rewrite Z.pow_add_r in L, U by lia.
    set (P := 2 ^ Zpos p) in *.
    assert (Hq52 : 2 ^ 52 <= shr_m mrs < 2 ^ 53) by nia.
    assert (Hval : 2 ^ (e + Zpos p + 1074) = P * 2 ^ (e + 1074)).
    { replace (e + Zpos p + 1074) with (Zpos p + (e + 1074)) by lia.
      rewrite Z.pow_add_r by lia. done. }
    set (X := 2 ^ (e + 1074)) in *.
    assert (Hbound : 2 ^ 53 * Z.abs (m1 * (P * X) - Zpos m * X) <= Zpos m * X).
    { replace (m1 * (P * X) - Zpos m * X) with ((m1 * P - Zpos m) * X) by ring.
      rewrite Z.abs_mul, (Z.abs_eq X) by lia.
      change (2 ^ 53) with (2 ^ 52 * 2) in *. nia. }
    assert (Hfexp : forall d k, Zpos d = 53 -> -1074 <= k ->
                      fexp prec emax (Zpos d + k) = k).
    { intros d k Hd Hk. unfold fexp, SpecFloat.emin. change prec with 53.
      change emax with 1024. lia. }
    change (emax - prec) with 971.
    destruct m1 as [|p1|p1] eqn:Hm1eq; [lia| |lia].
    destruct (Z_lt_le_dec (Zpos p1) (2 ^ 53)) as [Hlt|Hge].
    + assert (Hd1 : Zpos (digits2_pos p1) = 53)
        by (apply digits2_unique; change (53 - 1) with 52; lia).
      rewrite shr_fexp_noshift by (apply Hfexp; [done|lia]).
      cbn [shr_m].
      destruct (Z.leb_spec (e + Zpos p) 971); [right|left; split; [done|lia]].
      exists p1, (e + Zpos p). split; [done|].
      split; [apply bounded_intro; [apply Hfexp|]; [done|lia|done]|].
      by rewrite Hval.
    + assert (Zpos p1 = 2 ^ 53) as Hp1 by lia.
      assert (p1 = 9007199254740992%positive) as ->.
      { change (2 ^ 53) with (Zpos 9007199254740992) in Hp1. by injection Hp1. }
      rewrite (shr_fexp_shift _ _ 1); cycle 1.
      { unfold fexp, SpecFloat.emin. change prec with 53.
        change emax with 1024. simpl digits2_pos. lia. }
      simpl (Nat.iter _ _ _). cbn [shr_m].
      destruct (Z.leb_spec (e + Zpos p + 1) 971); [right|left; split; [done|lia]].
      eexists _, _. split; [reflexivity|].
      split; [apply bounded_intro; [apply Hfexp|]; [done|lia|done]|].
      replace (e + Zpos p + 1 + 1074) with (1 + (e + Zpos p + 1074)) by lia.
      rewrite Z.pow_add_r, Hval by lia.
      rewrite Hp1 in Hbound.
      replace (Zpos 4503599627370496 * (2 ^ 1 * (P * X))) with (2 ^ 53 * (P * X)); [done|].
      change (2 ^ 53) with (4503599627370496 * 2 ^ 1). ring.
Qed.

Lemma binary_round_error s m e :
  -1074 <= e ->
  rounds_to s (Zpos m * 2 ^ (e + 1074))
            (fexp prec emax (Zpos (digits2_pos m) + e))
            (binary_round prec emax s m e).
Proof.
  intros Hemin. unfold binary_round, shl_align.
  set (t := fexp prec emax (Zpos (digits2_pos m) + e)).
  assert (Ht : -1074 <= t).
  { unfold t, fexp, SpecFloat.emin. change prec with 53.
    change emax with 1024. lia. }
  destruct (t - e) as [|d|d] eqn:Hd.
  - apply binary_round_aux_error; [done|fold t; lia].
  - apply binary_round_aux_error; [done|fold t; lia].
  - assert (Hdig : fexp prec emax (Zpos (digits2_pos (Pos.iter xO m d)) + t) = t).
    { rewrite digits2_iter_xO.
      replace (Zpos (digits2_pos m) + Zpos d + t) with (Zpos (digits2_pos m) + e) by lia.
      done. }
    replace (Zpos m * 2 ^ (e + 1074))
      with (Zpos (Pos.iter xO m d) * 2 ^ (t + 1074)).
    { pose proof (binary_round_aux_error s (Pos.iter xO m d) t Ht ltac:(lia)) as Hr.
      by rewrite Hdig in Hr. }
    rewrite iter_xO. replace (e + 1074) with (Zpos d + (t + 1074)) by lia.
    rewrite (Z.pow_add_r 2 (Zpos d)) by lia. ring.
Qed.

Lemma finite_add_inv x y :
  finite (x + y) = true -> finite x = true /\ finite y = true.
Proof.
  unfold finite. rewrite add_spec.
  destruct (Prim2SF x) as [sx|sx| |sx mx ex], (Prim2SF y) as [sy|sy| |sy my ey];
    unfold SF64add, SFadd; try done;
    try (by destruct sx); try (by destruct sy); by destruct sx, sy.
Qed.

(** The error of a float addition that does not overflow is at most 2^-53
    of the exact sum. *)
Lemma add_error x y :
  finite (x + y) = true ->
  2 ^ 53 * Z.abs (F2Z (x + y) - (F2Z x + F2Z y)) <= Z.abs (F2Z x + F2Z y).
Proof.
  intros Hfin. unfold finite in Hfin. unfold F2Z at 1.
  pose proof (add_spec x y) as Hadd.
  destruct (Prim2SF x) as [sx|sx| |sx mx ex] eqn:Hx;
    destruct (Prim2SF y) as [sy|sy| |sy my ey] eqn:Hy;
    unfold SF64add, SFadd in Hadd;
    try (rewrite Hadd in Hfin; discriminate Hfin);
    try (destruct sx; rewrite Hadd in Hfin; discriminate Hfin);
    try (destruct sy; rewrite Hadd in Hfin; discriminate Hfin);
    try (destruct sx, sy; rewrite Hadd in Hfin; discriminate Hfin).
  - (* zero + zero *)
    unfold F2Z. rewrite Hx, Hy.
    destruct sx, sy; rewrite Hadd; simpl; lia.
  - (* zero + finite *)
    rewrite Hadd. unfold F2Z. rewrite Hx, Hy.
    replace (_ - _) with 0 by lia. simpl Z.abs at 1. lia.
  - (* finite + zero *)
    rewrite Hadd. unfold F2Z. rewrite Hx, Hy.
    replace (_ - _) with 0 by lia. simpl Z.abs at 1. lia.
  - (* finite + finite *)
    destruct (finite_canonical _ _ _ _ Hx) as [Cx _].
    destruct (finite_canonical _ _ _ _ Hy) as [Cy _].
    set (ez := Z.min ex ey) in *.
    assert (Hmx := shl_align_value mx ex ez ltac:(lia)).
    assert (Hmy := shl_align_value my ey ez ltac:(lia)).
    assert (HX : 0 < 2 ^ (ez + 1074)) by (apply Z.pow_pos_nonneg; lia).
    set (ax := fst (shl_align mx ex ez)) in *.
    set (ay := fst (shl_align my ey ez)) in *.
    assert (HV : F2Z x + F2Z y
                 = (cond_Zopp sx (Zpos ax) + cond_Zopp sy (Zpos ay)) * 2 ^ (ez + 1074)).
    { unfold F2Z. rewrite Hx, Hy.
      destruct sx, sy; unfold cond_Zopp; lia. }
    rewrite HV.
    set (M := cond_Zopp sx (Zpos ax) + cond_Zopp sy (Zpos ay)) in *.
    set (X := 2 ^ (ez + 1074)) in *.
    unfold binary_normalize in Hadd.
    destruct M as [|p|p].
    + rewrite Hadd. simpl. lia.
    + destruct (binary_round_error false p ez ltac:(lia))
        as [[Hinf _]|(m' & e' & Hr & _ & Herr)].
      { rewrite Hadd, Hinf in Hfin. discriminate Hfin. }
      rewrite Hadd, Hr. unfold cond_Zopp. fold X in Herr.
      rewrite (Z.abs_eq (Zpos p * X)) by lia. done.
    + destruct (binary_round_error true p ez ltac:(lia))
        as [[Hinf _]|(m' & e' & Hr & _ & Herr)].
      { rewrite Hadd, Hinf in Hfin. discriminate Hfin. }
      rewrite Hadd, Hr. unfold cond_Zopp. fold X in Herr.
      replace (- Zpos m' * 2 ^ (e' + 1074) - Z.neg p * X)
        with (- (Zpos m' * 2 ^ (e' + 1074) - Zpos p * X)) by lia.
      rewrite Z.abs_opp.
      replace (Z.neg p * X) with (- (Zpos p * X)) by lia.
      rewrite Z.abs_opp, (Z.abs_eq (Zpos p * X)) by lia. done.
Qed.

(** The two groupings of a sum of three floats, when neither overflows,
    differ by at most 2^-50 of the sum of the magnitudes. *)
Lemma add_assoc_error x y z :
  finite (x + y + z) = true ->
  finite (x + (y + z)) = true ->
  2 ^ 50 * Z.abs (F2Z (x + y + z) - F2Z (x + (y + z)))
  <= Z.abs (F2Z x) + Z.abs (F2Z y) + Z.abs (F2Z z).
Proof.
  intros Hl Hr.
  destruct (finite_add_inv _ _ Hl) as [Hxy _].
  destruct (finite_add_inv _ _ Hr) as [_ Hyz].
  pose proof (add_error _ _ Hxy) as E1.
  pose proof (add_error _ _ Hl) as E2.
  pose proof (add_error _ _ Hyz) as E3.
  pose proof (add_error _ _ Hr) as E4.
  change (2 ^ 53) with 9007199254740992 in *.
  change (2 ^ 50) with 1125899906842624.
  lia.
Qed.
(** Conversions of integers. An integer below 2^1023 in magnitude, as every
    64-bit count is, converts to a finite float, within 2^-53 of it:
    [np.float64] returns. *)
Lemma finite_not_infinity x : finite x = true -> is_infinity x = false.
Proof.
  unfold finite, is_infinity. rewrite FloatAxioms.eqb_spec, abs_spec.
  change (Prim2SF infinity) with (S754_infinity false).
  destruct (Prim2SF x) as [sx|sx| |sx mx ex]; done.
Qed.

Lemma Z2float_finite (n : Z) :
  Z.abs n < 2 ^ 1023 ->
  finite (Z2float n) = true
  /\ 2 ^ 53 * Z.abs (F2Z (Z2float n) - n * 2 ^ 1074) <= Z.abs n * 2 ^ 1074.
Proof.
  intros Hn. unfold Z2float, binary_normalize.
  assert (Hround : forall s p, Zpos p < 2 ^ 1023 ->
            exists m' e',
              Prim2SF (SF2Prim (binary_round prec emax s p 0)) = S754_finite s m' e'
              /\ 2 ^ 53 * Z.abs (Zpos m' * 2 ^ (e' + 1074) - Zpos p * 2 ^ 1074)
                 <= Zpos p * 2 ^ 1074).
  { intros s p Hp.
    destruct (binary_round_error s p 0 ltac:(lia))
      as [[_ Hover]|(m' & e' & Hr & Hvalid & Herr)].
    - exfalso. pose proof (digits2_bounds p) as [L _].
      rewrite Z.add_0_r in Hover.
      unfold fexp, SpecFloat.emin in Hover. change prec with 53 in Hover.
      change emax with 1024 in Hover.
      assert (2 ^ 1023 <= 2 ^ (Zpos (digits2_pos p) - 1))
        by (apply Z.pow_le_mono_r; lia).
      lia.
    - exists m', e'. rewrite Hr. split; [|exact Herr].
      by apply Prim2SF_SF2Prim. }
  destruct n as [|p|p].
  - split; reflexivity.
  - destruct (Hround false p ltac:(lia)) as (m' & e' & Hr & Herr).
    unfold finite, F2Z. rewrite Hr. split; [done|].
    unfold cond_Zopp. rewrite (Z.abs_eq (Zpos p)) by lia. done.
  - destruct (Hround true p ltac:(lia)) as (m' & e' & Hr & Herr).
    unfold finite, F2Z. rewrite Hr. split; [done|].
    unfold cond_Zopp.
    replace (- Zpos m' * 2 ^ (e' + 1074) - Z.neg p * 2 ^ 1074)
      with (- (Zpos m' * 2 ^ (e' + 1074) - Zpos p * 2 ^ 1074)) by lia.
    rewrite Z.abs_opp. change (Z.abs (Z.neg p)) with (Zpos p). done.
Qed.

Lemma np_float64_returns (n : Z) :
  Z.abs n < 2 ^ 1023 -> np_float64 n = Ok (Z2float n).
Proof.
  intros Hn. unfold np_float64.
  destruct (Z2float_finite n Hn) as [Hfin _].
  by rewrite (finite_not_infinity _ Hfin).
Qed.
End Rounding.

(** ** The two [from_monoid] methods *)

(** C4, as the code has it. For every accuracy value [v] whose two counts
    are below 2^1023 in magnitude (so that they convert to binary64, as every
    64-bit count does), [from_monoid v] returns the binary64 quotient of
    [match] by [total]. It returns it when [total] is 0 as well: the
    division is numpy's, the call does not fail, and the result is then NaN
    or an infinity, NaN when [match] is 0 too. *)
Theorem Accuracy_from_monoid_total (self : _Accuracy) (v : _AccuracyData) :
  Z.abs (_match v) < 2 ^ 1023 ->
  Z.abs (_total v) < 2 ^ 1023 ->
  from_monoid self v = Ok (Z2float (_match v) / Z2float (_total v))%float
  /\ (_total v = 0 ->
      nan_or_inf (Z2float (_match v) / Z2float (_total v))%float
      /\ (_match v = 0 -> from_monoid self v = Ok nan)).
Proof.
  intros Hm Ht.
  assert (Hv : from_monoid self v
               = Ok (Z2float (_match v) / Z2float (_total v))%float).
  { unfold from_monoid; simpl. unfold Accuracy_from_monoid.
    by rewrite (np_float64_returns _ Ht), (np_float64_returns _ Hm). }
  split; [exact Hv|]. intros Hz. split.
  - rewrite Hz. by apply div_by_zero.
  - intros Hz'. rewrite Hv, Hz, Hz'. reflexivity.
Qed.

Lemma Accuracy_from_monoid_total_witness :
  from_monoid Accuracy__init__ (mk_AccuracyData 3 5) = Ok (Z2float 3 / Z2float 5)%float
  /\ (5 = 0 ->
      nan_or_inf (Z2float 3 / Z2float 5)%float
      /\ (3 = 0 -> from_monoid Accuracy__init__ (mk_AccuracyData 3 5) = Ok nan)).
Proof.
  apply (Accuracy_from_monoid_total Accuracy__init__ (mk_AccuracyData 3 5)).
  - reflexivity.
  - reflexivity.
Defined.

(** C4 fails as stated: on the value with [match = 0] and [total = 0],
    [from_monoid] does not fail, it returns NaN. *)
Lemma Accuracy_from_monoid_zero_total_returns :
  _total (mk_AccuracyData 0 0) = 0
  /\ from_monoid Accuracy__init__ (mk_AccuracyData 0 0) = Ok nan
  /\ ~ fails (from_monoid Accuracy__init__ (mk_AccuracyData 0 0)).
Proof.
  split; [reflexivity|]. split; [reflexivity|].
  intros [e He]. discriminate He.
Qed.

(** C3, as the code has it. For every R2 value [v] whose [n] is below
    2^1023 in magnitude (so that it converts to binary64, as every 64-bit
    count does), [from_monoid v] computes [ss_tot = sum_sq - sum * sum / n] and
    returns [1 - res_sum_sq / ss_tot], in binary64 arithmetic. It returns it
    when [n] is 0 or [ss_tot] is zero as well: the divisions are numpy's, the
    call does not fail, and the result is then NaN or 1 when [n] is 0, and NaN
    or an infinity when [ss_tot] is zero. *)
Theorem R2_from_monoid_total (self : _R2) (v : _R2Data) :
  Z.abs (_n v) < 2 ^ 1023 ->
  exists ss_tot : float,
    ss_tot = (_sum_sq v - _sum v * _sum v / Z2float (_n v))%float
    /\ R2_ss_tot v = Ok ss_tot
    /\ from_monoid self v = Ok (1 - _res_sum_sq v / ss_tot)%float
    /\ (_n v = 0 ->
        (1 - _res_sum_sq v / ss_tot = nan \/ 1 - _res_sum_sq v / ss_tot = 1)%float)
    /\ ((ss_tot =? 0)%float = true ->
        nan_or_inf (1 - _res_sum_sq v / ss_tot)%float).
Proof.
  intros Hn. eexists. split; [reflexivity|].
  assert (Hss : R2_ss_tot v
                = Ok (_sum_sq v - _sum v * _sum v / Z2float (_n v))%float).
  { unfold R2_ss_tot. by rewrite (np_float64_returns _ Hn). }
  split; [exact Hss|]. split.
  { unfold from_monoid; simpl. unfold R2_from_monoid. by rewrite Hss. }
  split.
  - intros Hz. rewrite Hz. change (Z2float 0) with 0%float.
    pose proof (div_by_zero (_sum v * _sum v) 0 eq_refl) as Hq.
    pose proof (sub_nan_or_inf (_sum_sq v) _ Hq) as Hs.
    destruct (div_by_nan_or_inf (_res_sum_sq v) _ Hs) as [-> | [-> | ->]];
      [left|right|right]; reflexivity.
  - intros Hz. apply one_minus_nan_or_inf. by apply div_by_zero.
Qed.

Lemma R2_from_monoid_total_witness :
  exists ss_tot : float,
    ss_tot = (30 - 10 * 10 / Z2float 4)%float
    /\ R2_ss_tot (mk_R2Data 4 10 30 0) = Ok ss_tot
    /\ from_monoid R2__init__ (mk_R2Data 4 10 30 0) = Ok (1 - 0 / ss_tot)%float
    /\ (4 = 0 -> (1 - 0 / ss_tot = nan \/ 1 - 0 / ss_tot = 1)%float)
    /\ ((ss_tot =? 0)%float = true -> nan_or_inf (1 - 0 / ss_tot)%float).
Proof.
  apply (R2_from_monoid_total R2__init__ (mk_R2Data 4 10 30 0)).
  reflexivity.
Defined.

(** C3 fails as stated: on the statistics of four observations that are all
    5 and all predicted exactly, [n] is 4, [ss_tot] is zero, and
    [from_monoid] does not fail, it returns NaN; and on a value with [n = 0]
    it returns 1. *)
Lemma R2_from_monoid_degenerate_returns :
  R2_ss_tot (mk_R2Data 4 20 100 0) = Ok 0%float
  /\ from_monoid R2__init__ (mk_R2Data 4 20 100 0) = Ok nan
  /\ from_monoid R2__init__ (mk_R2Data 0 1 1 1) = Ok 1%float
  /\ ~ (fails (from_monoid R2__init__ (mk_R2Data 4 20 100 0))
        <-> (_n (mk_R2Data 4 20 100 0) = 0
             \/ exists s, R2_ss_tot (mk_R2Data 4 20 100 0) = Ok s
                          /\ (s =? 0)%float = true)).
Proof.
  split; [reflexivity|]. split; [reflexivity|]. split; [reflexivity|].
  intros [_ Hfails].
  destruct Hfails as [e He].
  - right. exists 0%float. split; reflexivity.
  - discriminate He.
Qed.

(** ** Associativity of [combine] *)

(** C2, as the code has it. [combine] is associative on accuracy values,
    whose fields are integers, and on the integer field [n] of R2 values. The
    other three fields of an R2 value are floats, added with binary64
    rounding. For each of them on its own: when its value is finite in both
    groupings, the two values differ by at most 2^-50 times the sum of the
    magnitudes of the three operands (the inequality is between exact
    values, scaled by 2^1074); and they are equal when none of the additions
    of that field rounds. When that holds of the three fields, the two
    groupings are the same R2 value. *)
Theorem combine_assoc :
  (forall a b c : _AccuracyData,
      combine (combine a b) c = combine a (combine b c))
  /\ (forall a b c : _R2Data,
      _n (combine (combine a b) c) = _n (combine a (combine b c)))
  /\ (forall a b c : _R2Data,
      Forall (fun field : _R2Data -> float =>
                finite (field (combine (combine a b) c)) = true ->
                finite (field (combine a (combine b c))) = true ->
                2 ^ 50 * Z.abs (F2Z (field (combine (combine a b) c))
                                - F2Z (field (combine a (combine b c))))
                <= Z.abs (F2Z (field a)) + Z.abs (F2Z (field b))
                   + Z.abs (F2Z (field c)))
             R2Data_float_fields)
  /\ (forall a b c : _R2Data,
      Forall (fun field : _R2Data -> float =>
                exact_sum3 (field a) (field b) (field c) = true ->
                field (combine (combine a b) c) = field (combine a (combine b c)))
             R2Data_float_fields)
  /\ (forall a b c : _R2Data,
      R2Data_exact a b c = true ->
      combine (combine a b) c = combine a (combine b c)).
Proof.
  unfold combine, AccuracyData_monoid, R2Data_monoid,
         AccuracyData_combine, R2Data_combine; simpl.
  split; [|split; [|split; [|split]]].
  - intros a b c. f_equal; lia.
  - intros a b c. lia.
  - intros a b c. unfold R2Data_float_fields.
    repeat constructor; simpl; intros Hl Hr; by apply add_assoc_error.
  - intros a b c. unfold R2Data_float_fields.
    repeat constructor; simpl; intros Hx; by apply add_assoc_exact.
  - intros a b c. unfold R2Data_exact; simpl.
    intros [[Hs Hq]%andb_prop Hr]%andb_prop.
    f_equal; [lia|by apply add_assoc_exact..].
Qed.

(** An instance on values whose [sum_sq] overflows in one grouping only:
    the bound holds of [sum] and of [res_sum_sq], whose groupings are
    finite; and an instance of the equality of a field, on values whose
    [sum_sq] additions round while those of [sum] do not. *)
Lemma combine_assoc_witness :
  let a := mk_R2Data 1 1 0x1p1023 0.25 in
  let b := mk_R2Data 1 0x1p-53 0x1p1023 0.5 in
  let c := mk_R2Data 1 0x1p-53 (-0x1p1023) 0.75 in
  (finite (_sum (combine (combine a b) c)) = true
   /\ finite (_sum (combine a (combine b c))) = true
   /\ 2 ^ 50 * Z.abs (F2Z (_sum (combine (combine a b) c))
                      - F2Z (_sum (combine a (combine b c))))
      <= Z.abs (F2Z (_sum a)) + Z.abs (F2Z (_sum b)) + Z.abs (F2Z (_sum c)))
  /\ (exact_sum3 (_res_sum_sq a) (_res_sum_sq b) (_res_sum_sq c) = true
      /\ _res_sum_sq (combine (combine a b) c) = _res_sum_sq (combine a (combine b c))).
Proof.
  intros a b c.
  pose proof (proj1 (proj2 (proj2 combine_assoc)) a b c) as Hbound.
  pose proof (proj1 (proj2 (proj2 (proj2 combine_assoc))) a b c) as Hexact.
  unfold R2Data_float_fields in Hbound, Hexact.
  split.
  - split; [reflexivity|]. split; [reflexivity|].
    apply (Forall_inv Hbound); reflexivity.
  - split; [reflexivity|].
    apply (Forall_inv (Forall_inv_tail (Forall_inv_tail Hexact))). reflexivity.
Defined.

(** C2 fails as stated: three R2 values of one observation each, 2^1023,
    2^1023 and -2^1023, predicted exactly. Grouped to the left the sums
    overflow to infinity, grouped to the right they give 2^1023; no tolerance
    makes an infinity close to a finite number. *)
Lemma R2Data_combine_overflow :
  let a := mk_R2Data 1 0x1p1023 infinity 0 in
  let c := mk_R2Data 1 (-0x1p1023) infinity 0 in
  _sum (combine (combine a a) c) = infinity
  /\ _sum (combine a (combine a c)) = 0x1p1023%float
  /\ (forall rel_tol abs_tol,
        isclose (_sum (combine (combine a a) c)) (_sum (combine a (combine a c)))
                rel_tol abs_tol = false)
  /\ combine (combine a a) c <> combine a (combine a c).
Proof.
  simpl. split; [reflexivity|]. split; [reflexivity|]. split.
  - intros rel_tol abs_tol. reflexivity.
  - intros Heq. apply (f_equal _sum) in Heq. vm_compute in Heq.
    apply (f_equal is_infinity) in Heq. vm_compute in Heq. discriminate Heq.
Qed.

(** ** The pipelines of the specification, and its scenarios *)

Lemma fold_left_indicator (l : list Z) (acc : Z) :
  Forall (fun x => 0 <= x <= 1) l ->
  acc <= fold_left Z.add l acc <= acc + Z.of_nat (length l).
Proof.
  intros Hl. revert acc.
  induction Hl as [|x l Hx _ IH]; intros acc; simpl fold_left.
  - simpl. lia.
  - specialize (IH (acc + x)). simpl length. lia.
Qed.

(** The accuracy value of a batch satisfies [0 <= match <= total]. *)
Lemma Accuracy_to_monoid_inv (batch : Batch_yyX) (v : _AccuracyData) :
  to_monoid Accuracy__init__ batch = Ok v -> AccuracyData_inv v.
Proof.
  unfold to_monoid; simpl. unfold Accuracy_to_monoid.
  destruct (batch_tables batch) as [[y_true y_pred]|]; [|discriminate].
  simpl. unfold accuracy_pipeline.
  destruct (aligned y_true y_pred); [|discriminate].
  simpl. intros [= <-]. unfold AccuracyData_inv; simpl.
  match goal with |- context [fold_left Z.add ?l 0] =>
    pose proof (fold_left_indicator l 0) as Hf end.
  apply Hf. apply Forall_forall. intros x [[t p] [-> _]]%list_elem_of_fmap.
  simpl. destruct (t =? p)%float; lia.
Qed.

Example accuracy_scenario :
  (accuracy_score (range_indexed [1; 0; 1; 1; 0]%float)
                  (PdSeries (range_indexed [1; 1; 1; 0; 0]%float))
                  initial_state).1
  = Ok (3 / 5)%float.
Proof. reflexivity. Qed.

Example accuracy_batched_scenario :
  score_data_batched Accuracy__init__
    (iter_of_list [(Some (range_indexed [1; 0]%float), NdArray [1; 1]%float, None);
                   (Some (range_indexed [1; 1; 0]%float), NdArray [1; 0; 0]%float, None)])
  = Ok (3 / 5)%float.
Proof. reflexivity. Qed.

Example r2_scenario :
  (r2_score (range_indexed [1; 2; 3; 4]%float)
            (PdSeries (range_indexed [1; 2; 3; 4]%float))
            initial_state).1
  = Ok 1%float.
Proof. reflexivity. Qed.

Example r2_degenerate_scenario :
  (r2_score (range_indexed [5; 5; 5; 5]%float)
            (PdSeries (range_indexed [5; 5; 5; 4]%float))
            initial_state).1
  = Ok neg_infinity.
Proof. reflexivity. Qed.

Example unknown_metric_scenario :
  (get_scorer "f1" initial_state).1 = Raise AssertionError.
Proof. reflexivity. Qed.

(** * Further properties of the module *)

(** ** Batched scoring is a left fold that stops at the first failure *)

Section BatchedFold.
Context {F M : Type} `{MetricMonoidFactory F M}.
Implicit Types (self : F) (b : Batch_yyX) (bs : list Batch_yyX) (v : M) (vs : list M).

Lemma gen_map_iter_of_list {A B : Type} (g : A -> result B) (l : list A) :
  gen_map g (iter_of_list l) = map g l.
Proof.
  unfold gen_map, iter_of_list. rewrite map_map. reflexivity.
Qed.

Lemma gen_map_app {A B : Type} (g : A -> result B) (it1 it2 : iterable A) :
  gen_map g (it1 ++ it2) = gen_map g it1 ++ gen_map g it2.
Proof. unfold gen_map. apply map_app. Qed.

(** Folding over elements that are all produced, then over [rest]. *)
Lemma reduce_from_produced {A C : Type} (f : C -> C -> C) (g : A -> result C)
    (l : list A) (cs : list C) (acc : C) (rest : iterable C) :
  Forall2 (fun a c => g a = Ok c) l cs ->
  reduce_from f acc (map g l ++ rest) = reduce_from f (fold_left f cs acc) rest.
Proof.
  intros Hl. revert acc.
  induction Hl as [|a c l cs Ha _ IH]; intros acc; [reflexivity|].
  simpl. rewrite Ha. simpl. apply IH.
Qed.

Lemma reduce_from_raise {C : Type} (f : C -> C -> C) (acc : C) (e : exn)
    (rest : iterable C) :
  reduce_from f acc (Raise e :: rest) = Raise e.
Proof. reflexivity. Qed.

Lemma all_lift_values {A C : Type} (g : A -> result C) (l : list A) :
  Forall (fun a => exists c, g a = Ok c) l ->
  exists cs, Forall2 (fun a c => g a = Ok c) l cs.
Proof.
  induction 1 as [|a l [c Hc] _ [cs IH]].
  - exists []. constructor.
  - exists (c :: cs). by constructor.
Qed.

Lemma functools_reduce_abort {A C : Type} (f : C -> C -> C) (g : A -> result C)
    (pre : list A) (e : exn) (rest : iterable C) :
  Forall (fun a => exists c, g a = Ok c) pre ->
  functools_reduce f (map g pre ++ Raise e :: rest) = Raise e.
Proof.
  intros Hpre. destruct (all_lift_values _ _ Hpre) as [cs Hcs].
  destruct Hcs as [|a0 c0 pre cs Ha0 Hcs]; simpl; [reflexivity|].
  rewrite Ha0. simpl.
  by rewrite (reduce_from_produced f g pre cs c0 _ Hcs).
Qed.

(** When every batch lifts, the score is [from_monoid] of the left fold of
    [combine] over the lifted values, started at the first one. *)
Theorem score_data_batched_fold self b bs v vs :
  to_monoid self b = Ok v ->
  Forall2 (fun b' v' => to_monoid self b' = Ok v') bs vs ->
  score_data_batched self (iter_of_list (b :: bs))
  = from_monoid self (fold_left combine vs v).
Proof.
  intros Hb Hbs. unfold score_data_batched.
  rewrite gen_map_iter_of_list. simpl. rewrite Hb. simpl.
  rewrite <- (app_nil_r (map _ bs)).
  rewrite (reduce_from_produced combine (to_monoid self) bs vs v [] Hbs).
  reflexivity.
Qed.



(** When the model predicts on every batch, the batched estimator score is
    the batched data score of the triples (y, predictions, X). *)
Theorem score_estimator_batched_predictions self (model : TrainedOperator)
    (batches : list Batch_Xy) (predictions : list labels) :
  Forall2 (fun '(X, _) p => predict model X = Ok p) batches predictions ->
  score_estimator_batched self model (iter_of_list batches)
  = score_data_batched self
      (iter_of_list (zip_with (fun '(X, y) p => (Some y, p, Some X))
                              batches predictions)).
Proof.
  intros Hp. unfold score_estimator_batched. f_equal.
  rewrite gen_map_iter_of_list. unfold iter_of_list.
  induction Hp as [|[X y] p batches predictions HX _ IH]; [reflexivity|].
  simpl. rewrite HX. simpl. f_equal. exact IH.
Qed.
End BatchedFold.

(** ** What [to_monoid] looks at *)








(** A batch without [y_true] fails the first assertion of [to_monoid], for
    either metric and whatever the pipeline; in a sequence of batches it ends
    the call there, when the batches before it lift. *)
Theorem score_data_batched_missing_labels :
  (forall (self : _Accuracy) (pre : list Batch_yyX) (y_pred : labels)
          (X : option DataFrame) (post : iterable Batch_yyX),
      Forall (fun b => exists v, to_monoid self b = Ok v) pre ->
      score_data_batched self (iter_of_list pre ++ Ok (None, y_pred, X) :: post)
      = Raise AssertionError)
  /\ (forall (self : _R2) (pre : list Batch_yyX) (y_pred : labels)
          (X : option DataFrame) (post : iterable Batch_yyX),
      Forall (fun b => exists v, to_monoid self b = Ok v) pre ->
      score_data_batched self (iter_of_list pre ++ Ok (None, y_pred, X) :: post)
      = Raise AssertionError).
Proof.
  split; intros self pre y_pred X post Hpre; unfold score_data_batched;
    rewrite gen_map_app, gen_map_iter_of_list.
  - change (gen_map (to_monoid self) (Ok (None, y_pred, X) :: post))
      with (Raise (A:=_AccuracyData) AssertionError :: gen_map (to_monoid self) post).
    by rewrite functools_reduce_abort.
  - change (gen_map (to_monoid self) (Ok (None, y_pred, X) :: post))
      with (Raise (A:=_R2Data) AssertionError :: gen_map (to_monoid self) post).
    by rewrite functools_reduce_abort.
Qed.

(** ** Order of the batches *)

Section Commutativity.
Implicit Types x y : float.

(** Binary64 addition is commutative, rounding included. *)
Lemma float_add_comm x y : (x + y = y + x)%float.
Proof.
  apply Prim2SF_inj. rewrite !add_spec. unfold SF64add, SFadd.
  destruct (Prim2SF x) as [sx|sx| |sx mx ex], (Prim2SF y) as [sy|sy| |sy my ey];
    try reflexivity; try (by destruct sx, sy).
  by rewrite (Z.min_comm ey ex), Z.add_comm.
Qed.

Lemma AccuracyData_combine_comm (a b : _AccuracyData) :
  AccuracyData_combine a b = AccuracyData_combine b a.
Proof. unfold AccuracyData_combine. f_equal; lia. Qed.

Lemma R2Data_combine_comm (a b : _R2Data) :
  R2Data_combine a b = R2Data_combine b a.
Proof. unfold R2Data_combine. f_equal; [lia|apply float_add_comm..]. Qed.
End Commutativity.

(** [combine] is commutative for both metrics, exactly: the integer fields
    add as integers and the float fields with binary64 addition, which is
    commutative although it is not associative. *)
Theorem combine_comm :
  (forall a b : _AccuracyData, combine a b = combine b a)
  /\ (forall a b : _R2Data, combine a b = combine b a).
Proof.
  split; intros a b;
    [apply AccuracyData_combine_comm|apply R2Data_combine_comm].
Qed.

(** Two batches can be scored in either order, for both metrics, when both
    lift. *)
Theorem score_data_batched_two_batches :
  (forall (self : _Accuracy) (b1 b2 : Batch_yyX),
      (exists v, to_monoid self b1 = Ok v) ->
      (exists v, to_monoid self b2 = Ok v) ->
      score_data_batched self (iter_of_list [b1; b2])
      = score_data_batched self (iter_of_list [b2; b1]))
  /\ (forall (self : _R2) (b1 b2 : Batch_yyX),
      (exists v, to_monoid self b1 = Ok v) ->
      (exists v, to_monoid self b2 = Ok v) ->
      score_data_batched self (iter_of_list [b1; b2])
      = score_data_batched self (iter_of_list [b2; b1])).
Proof.
  split; intros self b1 b2 [v1 H1] [v2 H2]; unfold score_data_batched;
    rewrite !gen_map_iter_of_list; cbn [map functools_reduce reduce_from];
    rewrite H1, H2; simpl; f_equal;
    [apply AccuracyData_combine_comm|apply R2Data_combine_comm].
Qed.

(** ** Accuracy: the batching does not matter *)

Section AccuracyBatches.
Implicit Types (self : _Accuracy) (b : Batch_yyX) (bs : list Batch_yyX)
               (v : _AccuracyData) (vs : list _AccuracyData).

Lemma AccuracyData_fold_total vs v :
  fold_left AccuracyData_combine vs v = AccuracyData_total (v :: vs).
Proof.
  revert v. induction vs as [|w vs IH]; intros v.
  - unfold AccuracyData_total; simpl. destruct v; simpl. f_equal; lia.
  - simpl fold_left. rewrite IH. unfold AccuracyData_total; simpl. f_equal; lia.
Qed.

Lemma sumZ_permutation (l l' : list Z) : l ≡ₚ l' -> sumZ l = sumZ l'.
Proof.
  unfold sumZ. induction 1; simpl; lia.
Qed.

Lemma AccuracyData_total_permutation vs vs' :
  vs ≡ₚ vs' -> AccuracyData_total vs = AccuracyData_total vs'.
Proof.
  intros Hp. unfold AccuracyData_total.
  f_equal; apply sumZ_permutation; by apply fmap_Permutation.
Qed.

Lemma AccuracyData_total_app vs vs' :
  AccuracyData_total (vs ++ vs')
  = AccuracyData_combine (AccuracyData_total vs) (AccuracyData_total vs').
Proof.
  unfold AccuracyData_total, AccuracyData_combine; simpl.
  rewrite !map_app. unfold sumZ. rewrite !foldr_app.
  f_equal.
  - induction (map _match vs) as [|x l IH]; simpl; lia.
  - induction (map _total vs) as [|x l IH]; simpl; lia.
Qed.

Lemma accuracy_batched_total self b bs v vs :
  to_monoid self b = Ok v ->
  Forall2 (fun b' v' => to_monoid self b' = Ok v') bs vs ->
  score_data_batched self (iter_of_list (b :: bs))
  = from_monoid self (AccuracyData_total (v :: vs)).
Proof.
  intros Hb Hbs. unfold score_data_batched.
  rewrite gen_map_iter_of_list. cbn [map functools_reduce]. rewrite Hb.
  simpl. rewrite <- (app_nil_r (map _ bs)).
  rewrite (reduce_from_produced _ (to_monoid self) bs vs v [] Hbs). simpl.
  by rewrite <- AccuracyData_fold_total.
Qed.

(** The lifted values of batches that lift, as a function of the batches. *)
Lemma lifted_values self bs vs :
  Forall2 (fun b v => to_monoid self b = Ok v) bs vs ->
  vs = map (fun b => match to_monoid self b with
                     | Ok v => v
                     | Raise _ => mk_AccuracyData 0 0
                     end) bs.
Proof.
  induction 1 as [|b v bs vs Hb _ IH]; [reflexivity|].
  cbn [map]. rewrite Hb. by f_equal.
Qed.
End AccuracyBatches.

(** The batched accuracy is the quotient of the summed fields: [match]
    summed over the batches by [total] summed over the batches. *)
Theorem accuracy_batched_sums (self : _Accuracy) (b : Batch_yyX)
    (bs : list Batch_yyX) (v : _AccuracyData) (vs : list _AccuracyData) :
  to_monoid self b = Ok v ->
  Forall2 (fun b' v' => to_monoid self b' = Ok v') bs vs ->
  score_data_batched self (iter_of_list (b :: bs))
  = from_monoid self (mk_AccuracyData (sumZ (map _match (v :: vs)))
                                      (sumZ (map _total (v :: vs)))).
Proof. apply accuracy_batched_total. Qed.

(** The batched accuracy does not depend on the order of the batches, when
    they all lift. *)
Theorem accuracy_batched_permutation (self : _Accuracy)
    (bs bs' : list Batch_yyX) :
  bs ≡ₚ bs' ->
  Forall (fun b => exists v, to_monoid self b = Ok v) bs ->
  score_data_batched self (iter_of_list bs)
  = score_data_batched self (iter_of_list bs').
Proof.
  intros Hperm Hbs.
  assert (Hbs' : Forall (fun b => exists v, to_monoid self b = Ok v) bs')
    by (by rewrite <- Hperm).
  destruct (all_lift_values _ _ Hbs) as [vs Hvs].
  destruct (all_lift_values _ _ Hbs') as [vs' Hvs'].
  assert (Hvp : vs ≡ₚ vs').
  { rewrite (lifted_values _ _ _ Hvs), (lifted_values _ _ _ Hvs').
    by apply fmap_Permutation. }
  destruct Hvs as [|b v bs vs Hb Hvs]; destruct Hvs' as [|b' v' bs' vs' Hb' Hvs'].
  - reflexivity.
  - by apply Permutation_nil_cons in Hvp.
  - symmetry in Hvp. by apply Permutation_nil_cons in Hvp.
  - rewrite (accuracy_batched_total _ _ _ _ _ Hb Hvs),
            (accuracy_batched_total _ _ _ _ _ Hb' Hvs').
    by rewrite (AccuracyData_total_permutation _ _ Hvp).
Qed.

(** The batched accuracy of two runs of batches is [from_monoid] of the
    combination of the two runs' folded values: reducing the runs apart and
    combining the results gives the score of the sequential fold. *)
Theorem accuracy_batched_chunks (self : _Accuracy)
    (b1 : Batch_yyX) (bs1 : list Batch_yyX) (b2 : Batch_yyX) (bs2 : list Batch_yyX)
    (v1 : _AccuracyData) (vs1 : list _AccuracyData)
    (v2 : _AccuracyData) (vs2 : list _AccuracyData) :
  Forall2 (fun b v => to_monoid self b = Ok v) (b1 :: bs1) (v1 :: vs1) ->
  Forall2 (fun b v => to_monoid self b = Ok v) (b2 :: bs2) (v2 :: vs2) ->
  score_data_batched self (iter_of_list ((b1 :: bs1) ++ (b2 :: bs2)))
  = from_monoid self (combine (fold_left combine vs1 v1)
                              (fold_left combine vs2 v2)).
Proof.
  intros H1 H2.
  pose proof (Forall2_app H1 H2) as H12.
  rewrite <- !app_comm_cons in H12.
  apply Forall2_cons_1 in H12 as [Hb H12].
  rewrite <- app_comm_cons.
  rewrite (accuracy_batched_total _ _ _ _ _ Hb H12).
  unfold combine, AccuracyData_monoid.
  rewrite !AccuracyData_fold_total.
  by rewrite <- AccuracyData_total_app.
Qed.

(** ** The scores at the ends of the scale *)

Section Endpoints.
Implicit Types (x y : float) (m : positive) (e : Z) (s : bool).

(** A finite nonzero float divided by itself is exactly 1. *)
Lemma float_div_self x s m e :
  Prim2SF x = S754_finite s m e -> (x / x = 1)%float.
Proof.
  intros Hx. apply Prim2SF_inj. rewrite div_spec, Hx.
  unfold SF64div, SFdiv, SFdiv_core_binary.
  cbn [Zdigits2]. rewrite !Z.sub_diag.
  change (Z.min (fexp prec emax 0) 0) with (-53).
  change (0 - -53) with 53.
  rewrite Z.shiftl_mul_pow2 by lia.
  assert (Hdiv : Z.div_eucl (Zpos m * 2 ^ 53) (Zpos m) = (2 ^ 53, 0)).
  { pose proof (Z.div_mul (2 ^ 53) (Zpos m) ltac:(lia)) as Hq.
    pose proof (Z.mod_mul (2 ^ 53) (Zpos m) ltac:(lia)) as Hr.
    rewrite (Z.mul_comm (Zpos m)).
    unfold Z.div, Z.modulo in Hq, Hr.
    destruct (Z.div_eucl (2 ^ 53 * Zpos m) (Zpos m)) as [q r].
    by subst. }
  rewrite Hdiv.
  assert (Hloc : new_location (Zpos m) 0 = loc_Exact).
  { unfold new_location, new_location_even, new_location_odd.
    by destruct (Z.even (Zpos m)). }
  rewrite Hloc. by destruct s.
Qed.

(** A positive integer below 2^1023 converts to a positive finite float. *)
Lemma Z2float_positive (n : Z) :
  0 < n < 2 ^ 1023 ->
  exists m e, Prim2SF (Z2float n) = S754_finite false m e.
Proof.
  intros Hn.
  destruct (Z2float_finite n ltac:(lia)) as [Hfin Herr].
  assert (0 < 2 ^ 1074) by (apply Z.pow_pos_nonneg; lia).
  assert (0 < n * 2 ^ 1074) by (apply Z.mul_pos_pos; lia).
  rewrite (Z.abs_eq n) in Herr by lia.
  change (2 ^ 53) with 9007199254740992 in Herr.
  assert (Hpos : 0 < F2Z (Z2float n)) by lia.
  unfold F2Z in Hpos.
  destruct (Prim2SF (Z2float n)) as [s|s| |s m e] eqn:Hf; try lia.
  destruct (finite_canonical _ _ _ _ Hf) as [Hc _].
  assert (0 < Zpos m * 2 ^ (e + 1074))
    by (apply Z.mul_pos_pos; [lia|apply Z.pow_pos_nonneg; lia]).
  destruct s; [|eauto].
  unfold cond_Zopp in Hpos. lia.
Qed.

Lemma float_zero_div x m e :
  Prim2SF x = S754_finite false m e -> (0 / x = 0)%float.
Proof.
  intros Hx. apply Prim2SF_inj. by rewrite div_spec, Hx.
Qed.

(** A zero dividend gives a zero quotient, of either sign, for every divisor
    that is neither a zero nor NaN. *)
Lemma float_zero_div_any x y :
  (x =? 0)%float = true -> (y =? 0)%float = false -> y <> nan ->
  (x / y = 0 \/ x / y = -0)%float.
Proof.
  intros [sx Hx]%eqb_zero_inv Hy0 Hnan.
  pose proof (div_spec x y) as Hd. rewrite Hx in Hd.
  rewrite FloatAxioms.eqb_spec in Hy0.
  change (Prim2SF 0) with (S754_zero false) in Hy0.
  destruct (Prim2SF y) as [sy|sy| |sy my ey] eqn:Hy.
  - by destruct sy.
  - apply Prim2SF_eq in Hd. rewrite Hd. destruct sx, sy; simpl; auto.
  - exfalso. apply Hnan. by apply Prim2SF_eq in Hy.
  - apply Prim2SF_eq in Hd. rewrite Hd. destruct sx, sy; simpl; auto.
Qed.
End Endpoints.

(** The accuracy of a value whose predictions all match is exactly 1, and
    the accuracy of a value with no match is exactly 0, for every positive
    [total] below 2^1023. *)
Theorem Accuracy_from_monoid_endpoints (self : _Accuracy) (total : Z) :
  0 < total < 2 ^ 1023 ->
  from_monoid self (mk_AccuracyData total total) = Ok 1%float
  /\ from_monoid self (mk_AccuracyData 0 total) = Ok 0%float.
Proof.
  intros Ht. destruct (Z2float_positive total Ht) as (m & e & Hf).
  split.
  - change (Accuracy_from_monoid self (mk_AccuracyData total total) = Ok 1%float).
    unfold Accuracy_from_monoid; cbn [_match _total].
    rewrite (np_float64_returns total) by lia. simpl. f_equal.
    by apply (float_div_self _ _ _ _ Hf).
  - change (Accuracy_from_monoid self (mk_AccuracyData 0 total) = Ok 0%float).
    unfold Accuracy_from_monoid; cbn [_match _total].
    rewrite (np_float64_returns total) by lia.
    change (np_float64 0) with (Ok 0%float). simpl. f_equal.
    by apply (float_zero_div _ _ _ Hf).
Qed.

Lemma Accuracy_from_monoid_endpoints_witness :
  from_monoid Accuracy__init__ (mk_AccuracyData 7 7) = Ok 1%float
  /\ from_monoid Accuracy__init__ (mk_AccuracyData 0 7) = Ok 0%float.
Proof.
  apply (Accuracy_from_monoid_endpoints Accuracy__init__ 7). split; reflexivity.
Defined.

(** The R2 of a value with no residual is exactly 1, whenever [ss_tot] is a
    number and is not zero. *)
Theorem R2_from_monoid_perfect (self : _R2) (v : _R2Data) (ss_tot : float) :
  R2_ss_tot v = Ok ss_tot ->
  (_res_sum_sq v =? 0)%float = true ->
  (ss_tot =? 0)%float = false ->
  ss_tot <> nan ->
  from_monoid self v = Ok 1%float.
Proof.
  intros Hss Hres Hz Hnan. unfold from_monoid; simpl. unfold R2_from_monoid.
  rewrite Hss. simpl. f_equal.
  destruct (float_zero_div_any _ _ Hres Hz Hnan) as [-> | ->]; reflexivity.
Qed.

Lemma R2_from_monoid_perfect_witness :
  from_monoid R2__init__ (mk_R2Data 4 10 30 0) = Ok 1%float.
Proof.
  apply (R2_from_monoid_perfect R2__init__ (mk_R2Data 4 10 30 0) 5%float).
  - reflexivity.
  - reflexivity.
  - reflexivity.
  - intros Heq. apply (f_equal is_nan) in Heq. vm_compute in Heq. discriminate Heq.
Defined.

(** ** More on the registry *)

Section RegistryInstances.
Implicit Types (σ : pystate) (name other : string) (l : ref).

(** Every reference in the cache is to an object of the store; no reference
    is shared by two names; every object of the store is referred to. *)
Lemma reachable_references σ :
  reachable σ ->
  (forall name l, _scorer_cache σ !! name = Some (Some l) ->
                  (l < length (objects σ))%nat)
  /\ (forall name other l,
        _scorer_cache σ !! name = Some (Some l) ->
        _scorer_cache σ !! other = Some (Some l) -> name = other)
  /\ (forall l, (l < length (objects σ))%nat ->
                exists name, _scorer_cache σ !! name = Some (Some l)).
Proof.
  unfold reachable. revert σ.
  apply (rtc_ind_r (fun σ =>
    (forall name l, _scorer_cache σ !! name = Some (Some l) ->
                    (l < length (objects σ))%nat)
    /\ (forall name other l,
          _scorer_cache σ !! name = Some (Some l) ->
          _scorer_cache σ !! other = Some (Some l) -> name = other)
    /\ (forall l, (l < length (objects σ))%nat ->
                  exists name, _scorer_cache σ !! name = Some (Some l)))).
  - split; [|split].
    + intros name l Hk. exfalso.
      assert (is_Some (_scorer_cache initial_state !! name)) as Hs by eauto.
      apply initial_registered in Hs as [-> | ->]; discriminate Hk.
    + intros name other l Hk. exfalso.
      assert (is_Some (_scorer_cache initial_state !! name)) as Hs by eauto.
      apply initial_registered in Hs as [-> | ->]; discriminate Hk.
    + simpl. lia.
  - intros σa σb _ Hab (Hbound & Hinj & Hsurj).
    destruct (step_cases _ _ Hab) as [->|(k & Hnone & ->)]; [done|].
    simpl. split; [|split].
    + intros name l. rewrite length_app. simpl.
      destruct (decide (k = name)) as [->|Hne].
      * rewrite lookup_insert_eq. intros [= <-]. lia.
      * rewrite lookup_insert_ne by done. intros Hk%Hbound. lia.
    + intros name other l. rewrite !lookup_insert.
      destruct (decide (k = name)) as [Hn|Hn]; destruct (decide (k = other)) as [Ho|Ho].
      * congruence.
      * intros [= <-] Hk%Hbound. lia.
      * intros Hk%Hbound [= <-]. lia.
      * apply Hinj.
    + intros l. rewrite length_app. simpl. intros Hl.
      destruct (decide (l = length (objects σa))) as [->|Hne].
      * exists k. by rewrite lookup_insert_eq.
      * destruct (Hsurj l ltac:(lia)) as [name Hname]. exists name.
        rewrite lookup_insert_ne; [done|]. intros ->. congruence.
Qed.
End RegistryInstances.

(** The registry constructs at most one instance for each of the two names:
    in every reachable state the store holds at most two objects, each object
    is the entry of exactly one name, and the instances of different names
    are different objects. *)
Theorem registry_one_instance_per_name (σ : pystate) :
  reachable σ ->
  (length (objects σ) <= 2)%nat
  /\ (forall l : ref, (l < length (objects σ))%nat ->
        exists name, _scorer_cache σ !! name = Some (Some l)
                     /\ forall other, _scorer_cache σ !! other = Some (Some l) ->
                                      other = name)
  /\ (forall la lr : ref,
        _scorer_cache σ !! "accuracy" = Some (Some la) ->
        _scorer_cache σ !! "r2" = Some (Some lr) -> la <> lr).
Proof.
  intros Hreach.
  destruct (reachable_references σ Hreach) as (Hbound & Hinj & Hsurj).
  split; [|split].
  - destruct (le_lt_dec (length (objects σ)) 2) as [|Hlen]; [done|exfalso].
    assert (Hname : forall l, (l < 3)%nat ->
              _scorer_cache σ !! "accuracy" = Some (Some l)
              \/ _scorer_cache σ !! "r2" = Some (Some l)).
    { intros l Hl. destruct (Hsurj l ltac:(lia)) as [name Hname].
      assert (is_Some (_scorer_cache σ !! name)) as Hs by eauto.
      apply (reachable_registered σ name Hreach) in Hs as [-> | ->]; auto. }
    destruct (Hname 0%nat ltac:(lia)) as [H0|H0];
      destruct (Hname 1%nat ltac:(lia)) as [H1|H1];
      destruct (Hname 2%nat ltac:(lia)) as [H2|H2]; congruence.
  - intros l Hl. destruct (Hsurj l Hl) as [name Hname].
    exists name. split; [done|]. intros other Ho. by apply (Hinj other name l).
  - intros la lr Ha Hr ->. by pose proof (Hinj _ _ _ Ha Hr).
Qed.

Lemma registry_one_instance_per_name_witness :
  (length (objects (get_scorer "r2" (get_scorer "accuracy" initial_state).2).2) <= 2)%nat.
Proof.
  apply (registry_one_instance_per_name
           (get_scorer "r2" (get_scorer "accuracy" initial_state).2).2).
  eapply rtc_l; [by exists "accuracy"|]. apply rtc_once. by exists "r2".
Defined.

(** A call of [get_scorer] leaves the entries of the other names and the
    objects already in the store as they are. *)
Theorem get_scorer_frame (σ : pystate) (name other : string) :
  other <> name ->
  _scorer_cache (get_scorer name σ).2 !! other = _scorer_cache σ !! other
  /\ (forall (l : ref) (o : scorer),
        objects σ !! l = Some o -> objects (get_scorer name σ).2 !! l = Some o).
Proof.
  intros Hne.
  destruct (get_scorer_state σ name) as [->|[_ ->]]; [done|].
  simpl. split; [by rewrite lookup_insert_ne|].
  intros l o Hl. by apply lookup_app_l_Some.
Qed.

Lemma get_scorer_frame_witness :
  _scorer_cache (get_scorer "accuracy" initial_state).2 !! "r2"
  = _scorer_cache initial_state !! "r2"
  /\ (forall (l : ref) (o : scorer),
        objects initial_state !! l = Some o ->
        objects (get_scorer "accuracy" initial_state).2 !! l = Some o).
Proof.
  apply (get_scorer_frame initial_state "accuracy" "r2"). discriminate.
Defined.

(** [accuracy_score] and [r2_score] give, in every reachable state of the
    registry, the [score_data] of a newly constructed factory: whether the
    scorer was cached or not does not show in the result. The state after
    the call is the state after [get_scorer]. *)
Theorem score_functions_any_state (σ : pystate) (y_true : Series)
    (y_pred : labels) :
  reachable σ ->
  accuracy_score y_true y_pred σ
  = (score_data Accuracy__init__ y_true y_pred None, (get_scorer "accuracy" σ).2)
  /\ r2_score y_true y_pred σ
     = (score_data R2__init__ y_true y_pred None, (get_scorer "r2" σ).2).
Proof.
  intros Hreach.
  assert (Hcall : forall name,
            name = "accuracy" \/ name = "r2" ->
            exists l, get_scorer name σ = (Ok l, (get_scorer name σ).2)
                      /\ objects (get_scorer name σ).2 !! l = Some (constructed name)).
  { intros name Hname.
    destruct (proj2 (reachable_registered σ name Hreach) Hname) as [[l|] Hk].
    - exists l. rewrite (get_scorer_initialized _ _ _ Hk). split; [done|].
      by apply reachable_objects.
    - exists (length (objects σ)). rewrite (get_scorer_first _ _ Hname Hk).
      split; [done|]. simpl. rewrite lookup_app_r by lia.
      by replace (length (objects σ) - length (objects σ))%nat with 0%nat by lia. }
  split.
  - destruct (Hcall "accuracy" ltac:(auto)) as (l & Hget & Hobj).
    unfold accuracy_score, mbind, py_bind, deref, py_lift.
    rewrite Hget, Hobj. reflexivity.
  - destruct (Hcall "r2" ltac:(auto)) as (l & Hget & Hobj).
    unfold r2_score, mbind, py_bind, deref, py_lift.
    rewrite Hget, Hobj. reflexivity.
Qed.

Lemma score_functions_any_state_witness :
  accuracy_score (range_indexed [1; 0]%float) (NdArray [1; 1]%float)
                 (get_scorer "accuracy" initial_state).2
  = (score_data Accuracy__init__ (range_indexed [1; 0]%float)
                (NdArray [1; 1]%float) None,
     (get_scorer "accuracy" (get_scorer "accuracy" initial_state).2).2).
Proof.
  apply (score_functions_any_state (get_scorer "accuracy" initial_state).2).
  apply rtc_once. by exists "accuracy".
Defined.

(** ** Instances on concrete inputs *)

(** Batch by batch, check that the batches of a concrete list lift. *)
Ltac lift_batches :=
  repeat first [ apply Forall2_nil | apply Forall2_cons
               | apply Forall_nil | apply Forall_cons
               | split | reflexivity | eexists; reflexivity ].

Lemma score_data_batched_fold_witness :
  score_data_batched Accuracy__init__ (iter_of_list [batch_1; batch_2])
  = from_monoid Accuracy__init__
      (fold_left combine [mk_AccuracyData 2 3] (mk_AccuracyData 1 2)).
Proof.
  apply (score_data_batched_fold Accuracy__init__ batch_1 [batch_2]).
  - reflexivity.
  - lift_batches.
Defined.



Lemma score_estimator_batched_predictions_witness :
  score_estimator_batched Accuracy__init__ model_ones
    (iter_of_list [(features_2, range_indexed [1; 0]%float)])
  = score_data_batched Accuracy__init__
      (iter_of_list (zip_with (fun '(X, y) p => (Some y, p, Some X))
                              [(features_2, range_indexed [1; 0]%float)]
                              [NdArray [1; 1]%float])).
Proof.
  apply (score_estimator_batched_predictions Accuracy__init__ model_ones).
  lift_batches.
Defined.

Lemma score_data_batched_missing_labels_witness :
  score_data_batched R2__init__
    (iter_of_list [batch_1] ++ Ok (None, NdArray [1]%float, None) :: [])
  = Raise AssertionError.
Proof.
  apply (proj2 score_data_batched_missing_labels R2__init__ [batch_1]).
  lift_batches.
Defined.

Lemma score_data_batched_two_batches_witness :
  score_data_batched R2__init__ (iter_of_list [batch_1; batch_2])
  = score_data_batched R2__init__ (iter_of_list [batch_2; batch_1]).
Proof.
  apply (proj2 score_data_batched_two_batches R2__init__ batch_1 batch_2);
    lift_batches.
Defined.

Lemma accuracy_batched_sums_witness :
  score_data_batched Accuracy__init__ (iter_of_list [batch_1; batch_2])
  = from_monoid Accuracy__init__
      (mk_AccuracyData (sumZ (map _match [mk_AccuracyData 1 2; mk_AccuracyData 2 3]))
                       (sumZ (map _total [mk_AccuracyData 1 2; mk_AccuracyData 2 3]))).
Proof.
  apply (accuracy_batched_sums Accuracy__init__ batch_1 [batch_2]).
  - reflexivity.
  - lift_batches.
Defined.

Lemma accuracy_batched_permutation_witness :
  score_data_batched Accuracy__init__ (iter_of_list [batch_1; batch_2])
  = score_data_batched Accuracy__init__ (iter_of_list [batch_2; batch_1]).
Proof.
  apply (accuracy_batched_permutation Accuracy__init__ [batch_1; batch_2]).
  - apply perm_swap.
  - lift_batches.
Defined.

Lemma accuracy_batched_chunks_witness :
  score_data_batched Accuracy__init__
    (iter_of_list ((batch_1 :: [batch_2]) ++ (batch_2 :: [])))
  = from_monoid Accuracy__init__
      (combine (fold_left combine [mk_AccuracyData 2 3] (mk_AccuracyData 1 2))
               (fold_left combine [] (mk_AccuracyData 2 3))).
Proof.
  apply (accuracy_batched_chunks Accuracy__init__ batch_1 [batch_2] batch_2 []);
    lift_batches.
Defined.
